(* Shallow embedding of the clash-detection core of the IFC GraphQL end point:
   app/services/geometry_service.py   (_round, _get_element, shape fallback,
                                       _topods_for_element, _bbox_disjoint,
                                       clash_between)
   app/services/wkt_clash_service.py  (_z_range, _project_triangle_xy,
                                       _footprint_polygon, detect_plan_clashes)
   app/resolvers/ifc_resolvers.py     (resolve_detect_clashes)

   Python floats are modelled as rationals [Q]; Python exceptions as the [Err]
   branch of a small error monad.  IfcOpenShell, OpenCASCADE and Shapely are
   external collaborators: they are records of operations the code calls. *)

From Stdlib Require Import QArith Qround Qabs Qminmax ZArith List String Ascii Bool Lia Lqa.
Import ListNotations.

Open Scope Q_scope.

(* ------------------------------------------------------------------------ *)
(** * Python exceptions and the error monad *)

(** Element references: [Union[int, str]]. *)
Inductive element_ref :=
| RefInt (n : Z)
| RefStr (s : string).

Inductive exn :=
| ElementNotFound (r : element_ref)       (* ValueError(f"Element '{r}' not found") *)
| IndexError                              (* list index out of range *)
| IntParseError (digits : list ascii)     (* ValueError from int(s) *)
| LibraryError (what : string)            (* raised inside IfcOpenShell / OCC *)
| GraphQLError (msg : string)              (* raised directly *)
| GraphQLWrapped (prefix : string) (cause : exn).   (* GraphQLError(f"{prefix}: {e}") *)

Inductive result (A : Type) :=
| Ok (a : A)
| Err (e : exn).
Arguments Ok {A} a.
Arguments Err {A} e.

Definition bind {A B} (c : result A) (k : A -> result B) : result B :=
  match c with Ok a => k a | Err e => Err e end.

Notation "x <- c ;; k" := (bind c (fun x => k))
  (at level 61, c at next level, right associativity).

Definition is_ok {A} (r : result A) : bool :=
  match r with Ok _ => true | Err _ => false end.

(* ------------------------------------------------------------------------ *)
(** * Numeric helpers of geometry_service.py *)

Definition Qltb (x y : Q) : bool := negb (Qle_bool y x).

Definition pow10 (dp : nat) : positive := Nat.iter dp (Pos.mul 10) 1%positive.

(** Python's [round(x, dp)]: nearest multiple of 10^-dp, ties to even. *)
Definition py_round (x : Q) (dp : nat) : Q :=
  let s := Zpos (pow10 dp) in
  let y := x * inject_Z s in
  let n := Qfloor y in
  let f := y - inject_Z n in
  let m :=
    if Qltb f (1#2) then n
    else if Qltb (1#2) f then (n + 1)%Z
    else if Z.even n then n else (n + 1)%Z in
  Qred (m # pow10 dp).

Definition _EPS : Q := 1 # 1000000000000.   (* 1e-12 *)
Definition _DP : nat := 4.
Definition _CLASH_DP : nat := 6.

(** [_round]: round with tiny-noise clamp. *)
Definition _round (x : Q) (dp : nat) : Q :=
  if Qltb (Qabs x) _EPS then 0 else py_round x dp.

(* ------------------------------------------------------------------------ *)
(** * String helpers used by [_get_element] (str.strip, isdigit, int) *)

(** A character of a string is a code point below 256 ([ascii] holds its
    number).  [str.isspace] on these code points: \t \n \v \f \r, the
    separators \x1c-\x1f, the space, \x85 and \xa0. *)
Definition is_space (c : ascii) : bool :=
  existsb (Nat.eqb (nat_of_ascii c)) [9; 10; 11; 12; 13; 28; 29; 30; 31; 32; 133; 160]%nat.

(** [str.isdigit] on these code points: 0-9 and the superscripts \xb2 \xb3 \xb9. *)
Definition is_digit (c : ascii) : bool :=
  existsb (Nat.eqb (nat_of_ascii c)) [178; 179; 185]%nat
  || ((48 <=? nat_of_ascii c)%nat && (nat_of_ascii c <=? 57)%nat).

(** The decimal digits [int()] accepts: 0-9. *)
Definition is_decimal (c : ascii) : bool :=
  (48 <=? nat_of_ascii c)%nat && (nat_of_ascii c <=? 57)%nat.

Fixpoint lstrip (l : list ascii) : list ascii :=
  match l with
  | c :: l' => if is_space c then lstrip l' else l
  | [] => []
  end.

(** [str.strip()] *)
Definition py_strip (s : string) : list ascii :=
  rev (lstrip (rev (lstrip (list_ascii_of_string s)))).

Definition py_isdigit (l : list ascii) : bool :=
  match l with [] => false | _ => forallb is_digit l end.

Definition decimal_value (l : list ascii) : Z :=
  fold_left (fun acc c => (acc * 10 + Z.of_nat (nat_of_ascii c - 48))%Z) l 0%Z.

(** [int(s)] on a string of digits: the superscripts raise ValueError. *)
Definition py_int (l : list ascii) : result Z :=
  if forallb is_decimal l then Ok (decimal_value l) else Err (IntParseError l).

(* ------------------------------------------------------------------------ *)
(** * IfcOpenShell as seen by the code *)

Section Ifc.

Variable Elem : Type.     (* ifcopenshell.entity_instance *)

Record ifc_model := {
  by_id : Z -> result Elem;          (* raises when the id is absent *)
  by_guid : string -> result Elem;   (* raises when the guid is absent *)
  entities : list Elem;              (* for ent in model *)
  by_type : string -> list Elem
}.

(** [ifcopenshell.geom.settings] after [_make_settings]; unset keys are false. *)
Record settings := {
  use_world_coords : bool;
  disable_opening_subtractions : bool;
  use_python_opencascade : bool
}.

Definition _make_settings (world disable_openings use_occ : bool) : settings :=
  {| use_world_coords := world;
     disable_opening_subtractions := disable_openings;
     use_python_opencascade := use_occ |}.

Definition string_eqb (a b : string) : bool := if string_dec a b then true else false.

Definition opt_string_eqb (a : option string) (b : string) : bool :=
  match a with Some a => string_eqb a b | None => false end.

(** [ref.startswith("#") and ref[1:].isdigit()] *)
Definition hash_digits (ref : list ascii) : option (list ascii) :=
  match ref with
  | c :: rest => if Ascii.eqb c "#"%char && py_isdigit rest then Some rest else None
  | [] => None
  end.

Definition _get_element (global_id : Elem -> option string)
    (model : ifc_model) (element_ref : element_ref) : result (option Elem) :=
  match element_ref with
  | RefInt n => e <- by_id model n ;; Ok (Some e)
  | RefStr s =>
      let ref := py_strip s in
      match hash_digits ref with
      | Some rest => n <- py_int rest ;; e <- by_id model n ;; Ok (Some e)
      | None =>
          if py_isdigit ref then n <- py_int ref ;; e <- by_id model n ;; Ok (Some e)
          else
            match by_guid model (string_of_list_ascii ref) with
            | Ok e => Ok (Some e)
            | Err _ =>
                Ok (find (fun ent => opt_string_eqb (global_id ent)
                                       (string_of_list_ascii ref))
                         (entities model))
            end
      end
  end.

(** [_create_shape_with_fallback]: normal settings, then openings disabled. *)
Definition _create_shape_with_fallback {G : Type}
    (create_shape : settings -> Elem -> result G)
    (element : Elem) (use_occ world : bool) : result G :=
  match create_shape (_make_settings world false use_occ) element with
  | Ok g => Ok g
  | Err _ => create_shape (_make_settings world true use_occ) element
  end.

End Ifc.

Arguments by_id {Elem} _ _.
Arguments by_guid {Elem} _ _.
Arguments entities {Elem} _.
Arguments by_type {Elem} _ _.
Arguments _get_element {Elem} _ _ _.
Arguments _create_shape_with_fallback {Elem G} _ _ _ _.

(* ------------------------------------------------------------------------ *)
(** * Meshes, boxes and the external geometry kernels *)

Definition vec3 : Type := (Q * Q * Q)%type.        (* [x, y, z] *)
Definition face : Type := (nat * nat * nat)%type.    (* [i, j, k] *)

(** [Bnd_Box]: axis-aligned min/max corners. *)
Record box := {
  bxmin : Q; bymin : Q; bzmin : Q;
  bxmax : Q; bymax : Q; bzmax : Q
}.

(** [Bnd_Box.IsOut(other)]: the boxes are separated along some axis. *)
Definition box_is_out (b1 b2 : box) : bool :=
  Qltb (bxmax b1) (bxmin b2) || Qltb (bxmax b2) (bxmin b1) ||
  Qltb (bymax b1) (bymin b2) || Qltb (bymax b2) (bymin b1) ||
  Qltb (bzmax b1) (bzmin b2) || Qltb (bzmax b2) (bzmin b1).

Section Geometry.

Variable Elem Shape : Type.   (* entity_instance, TopoDS_Shape *)

(** OpenCASCADE calls made by geometry_service.py. *)
Record occ_kernel := {
  bbox_add : option (Shape -> box);        (* brepbndlib_Add; None if the import failed *)
  brep_common : Shape -> Shape -> Shape;   (* BRepAlgoAPI_Common(sa, sb).Shape() *)
  volume_mass : Shape -> Q                 (* brepgprop.VolumeProperties(..); props.Mass() *)
}.

(** IfcOpenShell and the file system: the shape provider. *)
Record shape_provider := {
  norm_path : string -> string;                         (* _norm *)
  ifc_open : string -> result (ifc_model Elem);          (* ifcopenshell.open *)
  global_id : Elem -> option string;                    (* getattr(e, "GlobalId", None) *)
  create_shape_brep : settings -> Elem -> result Shape;  (* create_shape, use_occ on *)
  create_shape_mesh : settings -> Elem -> result (list vec3 * list face);
                                                        (* create_shape + get_vertices/get_faces *)
  isfile : string -> bool                               (* os.path.isfile *)
}.

Definition _open_ifc (P : shape_provider) (path : string) : result (ifc_model Elem) :=
  ifc_open P (norm_path P path).

Definition _topods_for_element (P : shape_provider) (file_path : string)
    (element_ref : element_ref) : result Shape :=
  model <- _open_ifc P file_path ;;
  el <- _get_element (global_id P) model element_ref ;;
  match el with
  | None => Err (ElementNotFound element_ref)
  | Some el => _create_shape_with_fallback (create_shape_brep P) el true true
  end.

(** [_bbox_disjoint]: fast AABB cull; no culling without the bbox helper. *)
Definition _bbox_disjoint (K : occ_kernel) (s1 s2 : Shape) : bool :=
  match bbox_add K with
  | None => false
  | Some add => box_is_out (add s1) (add s2)
  end.

Definition clash_between (P : shape_provider) (K : occ_kernel) (file_path : string)
    (a b : element_ref) : result Q :=
  sa <- _topods_for_element P file_path a ;;
  sb <- _topods_for_element P file_path b ;;
  if _bbox_disjoint K sa sb then Ok 0
  else
    let vol := Qmax 0 (volume_mass K (brep_common K sa sb)) in
    Ok (_round vol _CLASH_DP).

(* ------------------------------------------------------------------------ *)
(** * resolve_detect_clashes (app/resolvers/ifc_resolvers.py) *)

Definition ascii_lower (c : ascii) : ascii :=
  let n := nat_of_ascii c in
  if (65 <=? n)%nat && (n <=? 90)%nat then ascii_of_nat (n + 32) else c.

Definition str_lower (s : string) : string :=
  string_of_list_ascii (map ascii_lower (list_ascii_of_string s)).

(** [require_role]: [(info.context.get("role") or "anonymous").lower()]. *)
Definition require_role (role : option string) (allowed : list string) : result unit :=
  let r := match role with
           | Some EmptyString | None => "anonymous"%string
           | Some r => r
           end in
  if existsb (string_eqb (str_lower r)) (map str_lower allowed) then Ok tt
  else Err (GraphQLError "Forbidden").

Definition clash_types : list string :=
  ["IfcWall"; "IfcSlab"; "IfcBeam"; "IfcColumn"; "IfcFooting"; "IfcStair"]%string.

(** One step of the guid collection loop: [if gid and gid not in seen]. *)
Definition collect_guid (guids : list string) (e : Elem) (gid : option string) : list string :=
  match gid with
  | Some EmptyString | None => guids
  | Some g => if existsb (string_eqb g) guids then guids else guids ++ [g]
  end.

Definition collect_guids (P : shape_provider) (m : ifc_model Elem) : list string :=
  fold_left (fun guids e => collect_guid guids e (global_id P e))
            (flat_map (by_type m) clash_types) [].

(** [itertools.combinations(xs, 2)]. *)
Fixpoint combinations2 {A} (xs : list A) : list (A * A) :=
  match xs with
  | [] => []
  | x :: rest => map (pair x) rest ++ combinations2 rest
  end.

Record clash_row := {
  element1 : string;
  element2 : string;
  intersectionVolume : Q
}.

(** The pair loop: [vol = clash_between(...)]; [if vol > 0: results.append(...)]. *)
Fixpoint sweep_pairs (P : shape_provider) (K : occ_kernel) (file_path : string)
    (pairs : list (string * string)) : result (list clash_row) :=
  match pairs with
  | [] => Ok []
  | (a, b) :: rest =>
      vol <- clash_between P K file_path (RefStr a) (RefStr b) ;;
      rows <- sweep_pairs P K file_path rest ;;
      Ok (if Qltb 0 vol
          then {| element1 := a; element2 := b; intersectionVolume := vol |} :: rows
          else rows)
  end.

Definition resolve_detect_clashes (P : shape_provider) (K : occ_kernel)
    (role : option string) (filePath : string) : result (list clash_row) :=
  _ <- require_role role ["engineer"; "architect"]%string ;;
  if negb (isfile P filePath)
  then Err (GraphQLError ("File not found: " ++ filePath))
  else
    match (m <- ifc_open P filePath ;;
           sweep_pairs P K filePath (combinations2 (collect_guids P m))) with
    | Ok rows => Ok rows
    | Err e => Err (GraphQLWrapped "detectClashes failed" e)
    end.

End Geometry.

Arguments bbox_add {Shape} _.
Arguments brep_common {Shape} _ _ _.
Arguments volume_mass {Shape} _ _.
Arguments Build_occ_kernel {Shape} _ _ _.
Arguments norm_path {Elem Shape} _ _.
Arguments ifc_open {Elem Shape} _ _.
Arguments global_id {Elem Shape} _ _.
Arguments create_shape_brep {Elem Shape} _ _ _.
Arguments create_shape_mesh {Elem Shape} _ _ _.
Arguments isfile {Elem Shape} _ _.
Arguments _open_ifc {Elem Shape} _ _.
Arguments _topods_for_element {Elem Shape} _ _ _.
Arguments _bbox_disjoint {Shape} _ _ _.
Arguments clash_between {Elem Shape} _ _ _ _ _.
Arguments collect_guid {Elem} _ _ _.
Arguments collect_guids {Elem Shape} _ _.
Arguments sweep_pairs {Elem Shape} _ _ _ _.
Arguments resolve_detect_clashes {Elem Shape} _ _ _ _.

(* ------------------------------------------------------------------------ *)
(** * wkt_clash_service.py: footprints and the plan-clash scan *)

(** Python dict keyed by string: insertion ordered, re-assignment keeps the
    key's position and replaces its value. *)
Fixpoint dict_set {A} (k : string) (v : A) (d : list (string * A)) : list (string * A) :=
  match d with
  | [] => [(k, v)]
  | (k', v') :: rest => if string_eqb k k' then (k, v) :: rest else (k', v') :: dict_set k v rest
  end.

(** [verts[i]], raising IndexError out of range. *)
Definition py_index {A} (l : list A) (i : nat) : result A :=
  match nth_error l i with Some x => Ok x | None => Err IndexError end.

Definition list_min (x : Q) (xs : list Q) : Q := fold_left Qmin xs x.
Definition list_max (x : Q) (xs : list Q) : Q := fold_left Qmax xs x.

(** [_z_range]: [zs = [v[2] for v in verts] or [0.0]]. *)
Definition _z_range (verts : list vec3) : Q * Q :=
  match map (fun '(_, _, z) => z) verts with
  | [] => (0, 0)
  | z :: zs => (list_min z zs, list_max z zs)
  end.

Definition pt_eqb (p q : Q * Q) : bool :=
  Qeq_bool (fst p) (fst q) && Qeq_bool (snd p) (snd q).

(** [len(set(ring))]. *)
Definition set_size (ring : list (Q * Q)) : nat :=
  List.length (fold_left (fun seen p => if existsb (pt_eqb p) seen then seen else seen ++ [p])
                    ring []).

Section Plan.

Variable Elem Shape Region : Type.   (* Region: a Shapely geometry *)

(** Shapely calls made by the footprint projector. *)
Record footprint_ops := {
  polygon_empty : Region;                    (* Polygon() *)
  polygon_of_ring : list (Q * Q) -> Region;  (* Polygon(ring) *)
  is_empty : Region -> bool;                 (* .is_empty *)
  is_valid : Region -> bool;                 (* .is_valid *)
  unary_union : list Region -> Region;       (* shapely.ops.unary_union *)
  buffer : Q -> Region -> result Region      (* .buffer(d); may raise *)
}.

(** Shapely calls made by the pair scan. *)
Record overlay_ops := {
  intersection : Region -> Region -> Region; (* .intersection *)
  geom_area : Region -> Q;                   (* .area *)
  to_wkt : Region -> result string           (* .wkt; may raise *)
}.

Variable F : footprint_ops.
Variable O : overlay_ops.

Definition drop_z (p : vec3) : Q * Q := let '(x, y, _) := p in (x, y).

Definition _project_triangle_xy (tri3d : list vec3) : Region :=
  let ring := map drop_z tri3d in
  if (set_size ring <? 3)%nat then polygon_empty F else polygon_of_ring F ring.

(** The triangle loop of [_footprint_polygon]: the polygons kept for the union. *)
Fixpoint footprint_tris (verts : list vec3) (faces : list face) : result (list Region) :=
  match faces with
  | [] => Ok []
  | (i, j, k) :: rest =>
      vi <- py_index verts i ;; vj <- py_index verts j ;; vk <- py_index verts k ;;
      let poly := _project_triangle_xy [vi; vj; vk] in
      tris <- footprint_tris verts rest ;;
      Ok (if negb (is_empty F poly) && is_valid F poly then poly :: tris else tris)
  end.

(** The triangle selection as the spec words it: drop Z, discard triangles
    with fewer than 3 distinct XY points, keep all the others. *)
Fixpoint spec_footprint_tris (verts : list vec3) (faces : list face) : result (list Region) :=
  match faces with
  | [] => Ok []
  | (i, j, k) :: rest =>
      vi <- py_index verts i ;; vj <- py_index verts j ;; vk <- py_index verts k ;;
      let ring := map drop_z [vi; vj; vk] in
      tris <- spec_footprint_tris verts rest ;;
      Ok (if (set_size ring <? 3)%nat then tris else polygon_of_ring F ring :: tris)
  end.

Definition default_buffer_eps : Q := 1 # 10000.   (* 1e-4 *)

Definition _footprint_polygon (verts : list vec3) (faces : list face)
    (buffer_eps : Q) : result Region :=
  tris <- footprint_tris verts faces ;;
  match tris with
  | [] => Ok (polygon_empty F)
  | _ =>
      let merged := unary_union F tris in
      if Qltb 0 buffer_eps then
        match (m1 <- buffer F buffer_eps merged ;; buffer F (- buffer_eps) m1) with
        | Ok m => Ok m
        | Err _ => Ok merged
        end
      else Ok merged
  end.

(** Per-element precomputation [{"id", "zmin", "zmax", "fp"}]. *)
Record plan_data := {
  pd_id : string;
  pd_zmin : Q;
  pd_zmax : Q;
  pd_fp : Region
}.

Definition _settings_mesh_world : settings := _make_settings true false false.

Definition _mesh_world (P : shape_provider Elem Shape) (element : Elem)
    : result (list vec3 * list face) :=
  create_shape_mesh P _settings_mesh_world element.

Definition _prep (P : shape_provider Elem Shape) (elem : Elem) : result (option plan_data) :=
  match global_id P elem with
  | None | Some EmptyString => Ok None
  | Some gid =>
      VF <- _mesh_world P elem ;;
      let '(V, Fs) := VF in
      match V, Fs with
      | [], _ | _, [] => Ok None
      | _, _ =>
          let '(zmin, zmax) := _z_range V in
          fp <- _footprint_polygon V Fs default_buffer_eps ;;
          Ok (Some {| pd_id := gid; pd_zmin := zmin; pd_zmax := zmax; pd_fp := fp |})
      end
  end.

(** [for e in elems: d = _prep(e); if d and not d["fp"].is_empty: data[d["id"]] = d]. *)
Fixpoint build_data_from (P : shape_provider Elem Shape) (acc : list (string * plan_data))
    (elems : list Elem) : result (list (string * plan_data)) :=
  match elems with
  | [] => Ok acc
  | e :: rest =>
      d <- _prep P e ;;
      let acc' := match d with
                  | Some d => if negb (is_empty F (pd_fp d)) then dict_set (pd_id d) d acc else acc
                  | None => acc
                  end in
      build_data_from P acc' rest
  end.

Definition build_data (P : shape_provider Elem Shape) (elems : list Elem) :=
  build_data_from P [] elems.

(** A plan-clash row; [wkt] is [None] when the key is absent. *)
Record plan_clash := {
  aId : string;
  bId : string;
  area : Q;
  wkt : option (option string)
}.

(** The Z cull of the pair loop. *)
Definition z_culled (z_tolerance : Q) (A B : plan_data) : bool :=
  Qltb (pd_zmax A + z_tolerance) (pd_zmin B) || Qltb (pd_zmax B + z_tolerance) (pd_zmin A).

(** The 2D part of the pair loop body: intersect, keep positive areas. *)
Definition emit_intersection (return_wkt : bool) (aid bid : string) (A B : plan_data)
    : list plan_clash :=
  let inter := intersection O (pd_fp A) (pd_fp B) in
  if negb (is_empty F inter) then
    let ar := geom_area O inter in
    if Qltb 0 ar then
      [{| aId := aid; bId := bid; area := py_round ar 6;
          wkt := if return_wkt
                 then Some (match to_wkt O inter with Ok s => Some s | Err _ => None end)
                 else None |}]
    else []
  else [].

(** The body of the pair loop for one [(aid, A), (bid, B)]. *)
Definition pair_step (z_tolerance : Q) (return_wkt : bool)
    (a : string * plan_data) (b : string * plan_data) : list plan_clash :=
  let '(aid, A) := a in
  let '(bid, B) := b in
  if z_culled z_tolerance A B then [] else emit_intersection return_wkt aid bid A B.

Definition plan_scan (z_tolerance : Q) (return_wkt : bool)
    (a_data b_data : list (string * plan_data)) : list plan_clash :=
  flat_map (fun a => flat_map (pair_step z_tolerance return_wkt a) b_data) a_data.

Definition detect_plan_clashes (P : shape_provider Elem Shape) (file_path : string)
    (a_ifc_type b_ifc_type : string) (z_tolerance : Q) (return_wkt : bool)
    : result (list plan_clash) :=
  model <- _open_ifc P file_path ;;
  let a_elems := by_type model a_ifc_type in
  let b_elems := by_type model b_ifc_type in
  a_data <- build_data P a_elems ;;
  b_data <- build_data P b_elems ;;
  match a_data, b_data with
  | [], _ | _, [] => Ok []
  | _, _ => Ok (plan_scan z_tolerance return_wkt a_data b_data)
  end.

End Plan.

Arguments polygon_empty {Region} _.
Arguments polygon_of_ring {Region} _ _.
Arguments is_empty {Region} _ _.
Arguments is_valid {Region} _ _.
Arguments unary_union {Region} _ _.
Arguments buffer {Region} _ _ _.
Arguments intersection {Region} _ _ _.
Arguments geom_area {Region} _ _.
Arguments to_wkt {Region} _ _.
Arguments pd_id {Region} _.
Arguments pd_zmin {Region} _.
Arguments pd_zmax {Region} _.
Arguments pd_fp {Region} _.
Arguments Build_plan_data {Region} _ _ _ _.
Arguments footprint_tris {Region} _ _ _.
Arguments spec_footprint_tris {Region} _ _ _.
Arguments _project_triangle_xy {Region} _ _.
Arguments _footprint_polygon {Region} _ _ _ _.
Arguments _mesh_world {Elem Shape} _ _.
Arguments _prep {Elem Shape Region} _ _ _.
Arguments build_data_from {Elem Shape Region} _ _ _ _.
Arguments build_data {Elem Shape Region} _ _ _.
Arguments emit_intersection {Region} _ _ _ _ _ _ _.
Arguments pair_step {Region} _ _ _ _ _ _.
Arguments plan_scan {Region} _ _ _ _ _ _.
Arguments detect_plan_clashes {Elem Shape Region} _ _ _ _ _ _ _ _.
Arguments z_culled {Region} _ _ _.

(* ------------------------------------------------------------------------ *)
(** * Concrete collaborators, for running the code on explicit inputs *)

Module Demo.

(** Solids that are axis-aligned boxes: the boolean common of two boxes is a
    box and its volume is exact. *)
Definition box_common (b1 b2 : box) : box :=
  {| bxmin := Qmax (bxmin b1) (bxmin b2); bymin := Qmax (bymin b1) (bymin b2);
     bzmin := Qmax (bzmin b1) (bzmin b2);
     bxmax := Qmin (bxmax b1) (bxmax b2); bymax := Qmin (bymax b1) (bymax b2);
     bzmax := Qmin (bzmax b1) (bzmax b2) |}.

Definition box_volume (b : box) : Q :=
  Qmax 0 (bxmax b - bxmin b) * Qmax 0 (bymax b - bymin b) * Qmax 0 (bzmax b - bzmin b).

Definition box_kernel : occ_kernel box :=
  {| bbox_add := Some (fun b => b); brep_common := box_common; volume_mass := box_volume |}.

(** A table of elements; element [i] has STEP id [i + 1]. *)
Record demo_elem := {
  de_guid : string;
  de_type : string;
  de_solid : option box;                       (* None: create_shape raises *)
  de_mesh : option (list vec3 * list face)     (* None: create_shape raises *)
}.

Fixpoint find_index (p : demo_elem -> bool) (es : list demo_elem) (i : nat) : option nat :=
  match es with
  | [] => None
  | e :: rest => if p e then Some i else find_index p rest (S i)
  end.

Definition index_of_gid (es : list demo_elem) (g : string) : option nat :=
  find_index (fun e => string_eqb (de_guid e) g) es 0.

Definition demo_model (es : list demo_elem) : ifc_model nat :=
  {| by_id := fun n => if (0 <? n)%Z && (n <=? Z.of_nat (List.length es))%Z
                       then Ok (Z.to_nat n - 1)%nat
                       else Err (LibraryError "Instance #n not found");
     by_guid := fun g => match index_of_gid es g with
                         | Some i => Ok i
                         | None => Err (LibraryError "Instance not found")
                         end;
     entities := seq 0 (List.length es);
     by_type := fun t => filter (fun i => match nth_error es i with
                                          | Some e => string_eqb (de_type e) t
                                          | None => false
                                          end) (seq 0 (List.length es)) |}.

Definition demo_provider (es : list demo_elem) : shape_provider nat box :=
  {| norm_path := fun p => p;
     ifc_open := fun _ => Ok (demo_model es);
     global_id := fun i => option_map de_guid (nth_error es i);
     create_shape_brep := fun _ i =>
       match option_map de_solid (nth_error es i) with
       | Some (Some b) => Ok b
       | _ => Err (LibraryError "Failed to process shape")
       end;
     create_shape_mesh := fun _ i =>
       match option_map de_mesh (nth_error es i) with
       | Some (Some m) => Ok m
       | _ => Err (LibraryError "Failed to process shape")
       end;
     isfile := fun _ => true |}.

Definition mk_box (x0 y0 z0 x1 y1 z1 : Q) : box :=
  {| bxmin := x0; bymin := y0; bzmin := z0; bxmax := x1; bymax := y1; bzmax := z1 |}.

(** Plan regions for scans: an axis-aligned rectangle (with the validity of the
    ring it was built from), or the empty geometry.  Intersections and areas
    are exact on rectangles; a ring becomes its bounding rectangle, so
    footprints are exact for meshes whose plan projection is a rectangle. *)
Record rect := { rx0 : Q; ry0 : Q; rx1 : Q; ry1 : Q; rvalid : bool }.

Definition rregion := option rect.

Definition ring_signed_area2 (ring : list (Q * Q)) : Q :=
  match ring with
  | [(x1, y1); (x2, y2); (x3, y3)] => (x2 - x1) * (y3 - y1) - (x3 - x1) * (y2 - y1)
  | _ => 1
  end.

Definition bounding (pts : list (Q * Q)) : rregion :=
  match pts with
  | [] => None
  | (x, y) :: rest =>
      Some {| rx0 := list_min x (map fst rest); ry0 := list_min y (map snd rest);
              rx1 := list_max x (map fst rest); ry1 := list_max y (map snd rest);
              rvalid := true |}
  end.

Definition corners (r : rregion) : list (Q * Q) :=
  match r with
  | None => []
  | Some r => [(rx0 r, ry0 r); (rx1 r, ry1 r)]
  end.

Definition rect_grow (d : Q) (r : rregion) : result rregion :=
  match r with
  | None => Ok None
  | Some r =>
      if Qle_bool (rx0 r - d) (rx1 r + d) && Qle_bool (ry0 r - d) (ry1 r + d)
      then Ok (Some {| rx0 := rx0 r - d; ry0 := ry0 r - d; rx1 := rx1 r + d;
                       ry1 := ry1 r + d; rvalid := true |})
      else Ok None
  end.

Definition rect_footprint_ops : footprint_ops rregion :=
  {| polygon_empty := None;
     polygon_of_ring := fun ring =>
       match bounding ring with
       | Some r => Some {| rx0 := rx0 r; ry0 := ry0 r; rx1 := rx1 r; ry1 := ry1 r;
                           rvalid := negb (Qeq_bool (ring_signed_area2 ring) 0) |}
       | None => None
       end;
     is_empty := fun r => match r with None => true | Some _ => false end;
     is_valid := fun r => match r with None => true | Some r => rvalid r end;
     unary_union := fun rs => bounding (flat_map corners rs);
     buffer := rect_grow |}.

Definition rect_inter (a b : rregion) : rregion :=
  match a, b with
  | Some a, Some b =>
      let x0 := Qmax (rx0 a) (rx0 b) in let x1 := Qmin (rx1 a) (rx1 b) in
      let y0 := Qmax (ry0 a) (ry0 b) in let y1 := Qmin (ry1 a) (ry1 b) in
      if Qle_bool x0 x1 && Qle_bool y0 y1
      then Some {| rx0 := x0; ry0 := y0; rx1 := x1; ry1 := y1; rvalid := true |}
      else None
  | _, _ => None
  end.

Definition rect_area (r : rregion) : Q :=
  match r with None => 0 | Some r => (rx1 r - rx0 r) * (ry1 r - ry0 r) end.

Definition rect_overlay_ops : overlay_ops rregion :=
  {| intersection := rect_inter; geom_area := rect_area;
     to_wkt := fun _ => Ok "POLYGON"%string |}.

(** A mesh whose plan projection is the rectangle [x0,x1] x [y0,y1], with
    its bottom at [z0] and top at [z1]. *)
Definition slab_mesh (x0 y0 x1 y1 z0 z1 : Q) : list vec3 * list face :=
  ([(x0, y0, z0); (x1, y0, z0); (x1, y1, z1); (x0, y1, z1)],
   [(0, 1, 2); (0, 2, 3)]%nat).

(** A model for the 3D sweep: two overlapping walls, a slab whose shape
    cannot be built, a beam far away. *)
Definition sweep_elems : list demo_elem :=
  [ {| de_guid := "wallA"; de_type := "IfcWall"; de_solid := Some (mk_box 0 0 0 2 2 2);
       de_mesh := None |};
    {| de_guid := "wallB"; de_type := "IfcWall"; de_solid := Some (mk_box 1 1 1 3 3 3);
       de_mesh := None |};
    {| de_guid := "slabC"; de_type := "IfcSlab"; de_solid := None; de_mesh := None |};
    {| de_guid := "beamD"; de_type := "IfcBeam"; de_solid := Some (mk_box 10 10 10 11 11 11);
       de_mesh := None |} ]%string.

Definition sweep_provider : shape_provider nat box := demo_provider sweep_elems.

(** Plan models.  A wall and a slab whose footprints overlap on a sliver of
    width 1e-9 (area 1e-9). *)
Definition sliver_elems : list demo_elem :=
  [ {| de_guid := "wall"; de_type := "IfcWall"; de_solid := None;
       de_mesh := Some (slab_mesh 0 0 1 1 0 1) |};
    {| de_guid := "slab"; de_type := "IfcSlab"; de_solid := None;
       de_mesh := Some (slab_mesh (1 - (1 # 1000000000)) 0 2 1 0 1) |} ]%string.

(** Two walls, [0,3]x[0,3] and [2,5]x[2,5], both spanning z in [0,1]. *)
Definition two_walls : list demo_elem :=
  [ {| de_guid := "w1"; de_type := "IfcWall"; de_solid := None;
       de_mesh := Some (slab_mesh 0 0 3 3 0 1) |};
    {| de_guid := "w2"; de_type := "IfcWall"; de_solid := None;
       de_mesh := Some (slab_mesh 2 2 5 5 0 1) |} ]%string.

(** Full XY overlap, Z extents [0,1] and [5,6]. *)
Definition stacked_elems : list demo_elem :=
  [ {| de_guid := "lo"; de_type := "IfcWall"; de_solid := None;
       de_mesh := Some (slab_mesh 0 0 1 1 0 1) |};
    {| de_guid := "hi"; de_type := "IfcSlab"; de_solid := None;
       de_mesh := Some (slab_mesh 0 0 1 1 5 6) |} ]%string.

Definition no_data : plan_data rregion :=
  {| pd_id := ""; pd_zmin := 0; pd_zmax := 0; pd_fp := None |}.

(** The precomputed dict of one type, and its first entry. *)
Definition data_of (es : list demo_elem) (t : string) : list (string * plan_data rregion) :=
  match build_data rect_footprint_ops (demo_provider es) (by_type (demo_model es) t) with
  | Ok d => d
  | Err _ => []
  end.

Definition entry_of (es : list demo_elem) (t : string) : string * plan_data rregion :=
  match data_of es t with e :: _ => e | [] => (""%string, no_data) end.

(** A mesh with one proper triangle and one triangle whose three distinct
    XY points are collinear. *)
Definition collinear_verts : list vec3 := [(0, 0, 0); (1, 0, 0); (0, 1, 0); (2, 0, 0)].
Definition collinear_faces : list face := [(0, 1, 2); (0, 1, 3)]%nat.

End Demo.

Section ClaimPredicates.

Variable Elem Shape : Type.

(** An element reference that cannot be resolved to an exact shape: the file
    cannot be opened, the lookup raises or finds nothing, or both shape
    constructions (normal settings, then openings disabled) raise. *)
Definition unresolvable (P : shape_provider Elem Shape) (file_path : string)
    (r : element_ref) : Prop :=
  match _open_ifc P file_path with
  | Err _ => True
  | Ok model =>
      match _get_element (global_id P) model r with
      | Err _ | Ok None => True
      | Ok (Some el) =>
          is_ok (create_shape_brep P (_make_settings true false true) el) = false /\
          is_ok (create_shape_brep P (_make_settings true true true) el) = false
      end
  end.

End ClaimPredicates.

Arguments unresolvable {Elem Shape} _ _ _.

(** Every face indexes existing vertices. *)
Definition indices_in_range (verts : list vec3) (faces : list face) : Prop :=
  Forall (fun '(i, j, k) =>
            (i < List.length verts /\ j < List.length verts /\ k < List.length verts)%nat) faces.

(** Order-preserving sub-sequence. *)
Inductive sublist {A : Type} : list A -> list A -> Prop :=
| sublist_nil : sublist [] []
| sublist_skip x l1 l2 : sublist l1 l2 -> sublist l1 (x :: l2)
| sublist_keep x l1 l2 : sublist l1 l2 -> sublist (x :: l1) (x :: l2).

(* ------------------------------------------------------------------------ *)
(** * The rest of geometry_service.py, its callers and the role helpers *)

(** Python dict access on an association list with distinct keys. *)
Definition dict_get {V} (d : list (string * V)) (k : string) : option V :=
  match find (fun kv => string_eqb (fst kv) k) d with
  | Some (_, v) => Some v
  | None => None
  end.

(** [k in d]. *)
Definition dict_mem {V} (d : list (string * V)) (k : string) : bool :=
  existsb (fun kv => string_eqb (fst kv) k) d.

(** [role_is] (app/utils/authz.py). *)
Definition role_is (role : option string) (roles : list string) : bool :=
  let r := match role with
           | Some EmptyString | None => "anonymous"%string
           | Some r => r
           end in
  existsb (string_eqb (str_lower r)) (map str_lower roles).

Definition mask_keep : list string :=
  ["id"; "name"; "glbUrl"; "matrix"; "location"; "hasGlbFile"]%string.

(** [mask_for_client]: [{k: payload.get(k) for k in keep if k in payload}]. *)
Definition mask_for_client {V} (payload : list (string * V)) : list (string * option V) :=
  map (fun k => (k, dict_get payload k)) (filter (dict_mem payload) mask_keep).

(** [for x, y, z in verts]: skip below [z_min] or above [z_max] when given. *)
Fixpoint band_points (z_min z_max : option Q) (verts : list vec3) : list (Q * Q) :=
  match verts with
  | [] => []
  | (x, y, z) :: rest =>
      if match z_min with Some m => Qltb z m | None => false end then band_points z_min z_max rest
      else if match z_max with Some m => Qltb m z | None => false end then band_points z_min z_max rest
      else (x, y) :: band_points z_min z_max rest
  end.

(** The names bound at the top level of app/services/wkt_clash_service.py
    (besides the module's dunder attributes). *)
Definition wkt_clash_service_names : list string :=
  ["annotations"; "Dict"; "List"; "Tuple"; "ifcopenshell"; "Polygon"; "unary_union";
   "_open_ifc"; "_get_element"; "_settings_mesh_world"; "_mesh_world"; "_z_range";
   "_project_triangle_xy"; "_footprint_polygon"; "detect_plan_clashes"]%string.

(** [resolve_overlaps_2d_on_storey] (app/resolvers/wkt_clash_resolvers.py);
    [svc_getattr n] is [getattr(svc, n, None)] for a function of the service,
    [is_type_error] recognises a [TypeError]. *)
Definition resolve_overlaps_2d_on_storey {R}
    (svc_getattr : string -> option (string -> string -> string -> string -> Q -> bool -> result R))
    (is_type_error : exn -> bool) (isfile : string -> bool)
    (filePath storeyId aType bType : string) (zTolerance : Q) (returnWkt : bool) : result R :=
  if negb (isfile filePath) then Err (GraphQLError ("File not found: " ++ filePath))
  else
    let fn := match svc_getattr "overlaps_2d_on_storey"%string with
              | Some f => Some f
              | None => match svc_getattr "overlaps2d_on_storey"%string with
                        | Some f => Some f
                        | None => svc_getattr "overlaps2DOnStorey"%string
                        end
              end in
    match fn with
    | None => Err (GraphQLError "Server misconfig: wkt_clash_service is missing overlaps_2d_on_storey")
    | Some fn =>
        match fn filePath storeyId aType bType zTolerance returnWkt with   (* keywords *)
        | Err e => if is_type_error e
                   then fn filePath storeyId aType bType zTolerance returnWkt   (* positional *)
                   else Err e
        | r => r
        end
    end.

(** lifecycle_service.py lookup tables. *)
Definition DENSITY_BY_IFC : list (string * Q) :=
  [("IfcSlab", 2300); ("IfcWall", 2000); ("IfcBeam", 7850); ("IfcColumn", 7850);
   ("default", 2400)]%string.

Definition EC_FACTOR_BY_IFC : list (string * Q) :=
  [("IfcSlab", 12 # 100); ("IfcWall", 12 # 100); ("IfcBeam", 19 # 10); ("IfcColumn", 19 # 10);
   ("default", 1 # 10)]%string.

(** [table.get(etype, table["default"])] ("default" is a key of both tables). *)
Definition table_get (table : list (string * Q)) (etype : string) : Q :=
  match dict_get table etype with
  | Some v => v
  | None => match dict_get table "default"%string with Some v => v | None => 0 end
  end.

(** A row of [elements_by_type] (app/services/ifc_service.py). *)
Record ifc_element_row := {
  row_id : option string;
  row_name : option string;
  row_type : string;
  row_area : option Q;
  row_volume : option Q
}.

(** [{"intersectionVolume": vol, "a": ga_small, "b": gb_small}]. *)
Record pair_clash_payload (V : Type) := {
  pc_intersectionVolume : Q;
  pc_a : list (string * option V);
  pc_b : list (string * option V)
}.
Arguments pc_intersectionVolume {V} _.
Arguments pc_a {V} _.
Arguments pc_b {V} _.
Arguments Build_pair_clash_payload {V} _ _ _.

(** The payload [resolve_get_element_geometry] returns: as exported, or masked. *)
Inductive geometry_response (V : Type) :=
| FullPayload (p : list (string * V))
| MaskedPayload (p : list (string * option V)).
Arguments FullPayload {V} p.
Arguments MaskedPayload {V} p.

Section Services.

Variable Elem Shape : Type.
Variable P : shape_provider Elem Shape.
Variable K : occ_kernel Shape.
(** [brepgprop.SurfaceProperties(shape, props); props.Mass()]. *)
Variable surface_mass : Shape -> Q.
(** [el.is_a()], [el.id()], [getattr(el, "Name", None)]. *)
Variable is_a : Elem -> string.
Variable step_id : Elem -> Z.
Variable name : Elem -> option string.
(** [el.GlobalId]: raises AttributeError on an entity whose type has no
    GlobalId attribute (IfcMaterial, IfcCartesianPoint, ...). *)
Variable get_GlobalId : Elem -> result (option string).

(** geometry_service.compute_element_volume *)
Definition compute_element_volume (file_path : string) (element_id : element_ref) : result Q :=
  topods <- _topods_for_element P file_path element_id ;;
  Ok (_round (volume_mass K topods) _DP).

(** geometry_service.compute_element_surface_area *)
Definition compute_element_surface_area (file_path : string) (element_id : element_ref)
    : result Q :=
  topods <- _topods_for_element P file_path element_id ;;
  Ok (_round (surface_mass topods) _DP).

(** geometry_service._footprint_polygon_for_element, with the Shapely call
    [MultiPoint(pts_xy).convex_hull] as [convex_hull]. *)
Definition _footprint_polygon_for_element {Region} (convex_hull : list (Q * Q) -> Region)
    (file_path : string) (element_ref : element_ref) (z_min z_max : option Q)
    : result (option Region) :=
  model <- _open_ifc P file_path ;;
  el <- _get_element (global_id P) model element_ref ;;
  match el with
  | None => Ok None
  | Some el =>
      shape <- _create_shape_with_fallback (create_shape_mesh P) el false true ;;
      let pts_xy := band_points z_min z_max (fst shape) in
      if (List.length pts_xy <? 3)%nat then Ok None
      else Ok (Some (convex_hull pts_xy))
  end.

(** geometry_service.overlaps_2d_on_storey *)
Definition overlaps_2d_on_storey {Region} (convex_hull : list (Q * Q) -> Region)
    (O : overlay_ops Region) (file_path : string) (element_a element_b : element_ref)
    (z_min z_max : option Q) (area_tol : Q) : result bool :=
  pa <- _footprint_polygon_for_element convex_hull file_path element_a z_min z_max ;;
  pb <- _footprint_polygon_for_element convex_hull file_path element_b z_min z_max ;;
  match pa, pb with
  | Some pa, Some pb =>
      let inter := intersection O pa pb in
      Ok (Qltb area_tol (geom_area O inter))
  | _, _ => Ok false
  end.

(** ifc_resolvers.resolve_pairwise_clash *)
Definition resolve_pairwise_clash (role : option string) (filePath a b : string)
    : result clash_row :=
  _ <- require_role role ["engineer"; "architect"]%string ;;
  if negb (isfile P filePath) then Err (GraphQLError ("File not found: " ++ filePath))
  else
    match clash_between P K filePath (RefStr a) (RefStr b) with
    | Ok vol => Ok {| element1 := a; element2 := b; intersectionVolume := vol |}
    | Err e => Err (GraphQLWrapped "pairwiseClash failed" e)
    end.

(** [{"id": g.get("id"), "name": g.get("name"), "glbUrl": g.get("glbUrl")}]. *)
Definition small_geometry {V} (g : list (string * V)) : list (string * option V) :=
  [("id"%string, dict_get g "id"); ("name"%string, dict_get g "name");
   ("glbUrl"%string, dict_get g "glbUrl")].

(** ifc_resolvers.resolve_pair_clash_with_geometry, over
    [export_element_geometry] as given. *)
Definition resolve_pair_clash_with_geometry {V}
    (export_element_geometry : string -> element_ref -> result (list (string * V)))
    (role : option string) (filePath a b : string) : result (pair_clash_payload V) :=
  _ <- require_role role ["engineer"; "architect"]%string ;;
  if negb (isfile P filePath) then Err (GraphQLError ("File not found: " ++ filePath))
  else
    match (vol <- clash_between P K filePath (RefStr a) (RefStr b) ;;
           ga <- export_element_geometry filePath (RefStr a) ;;
           gb <- export_element_geometry filePath (RefStr b) ;;
           Ok {| pc_intersectionVolume := vol; pc_a := small_geometry ga;
                 pc_b := small_geometry gb |}) with
    | Ok r => Ok r
    | Err e => Err (GraphQLWrapped "pairClashWithGeometry failed" e)
    end.

(** geometry_resolvers.resolve_element_volume / resolve_element_surface_area *)
Definition resolve_element_volume (role : option string) (filePath elementId : string)
    : result Q :=
  _ <- require_role role ["engineer"; "architect"]%string ;;
  match compute_element_volume filePath (RefStr elementId) with
  | Ok v => Ok v
  | Err e => Err (GraphQLWrapped "Volume computation failed" e)
  end.

Definition resolve_element_surface_area (role : option string) (filePath elementId : string)
    : result Q :=
  _ <- require_role role ["engineer"; "architect"]%string ;;
  match compute_element_surface_area filePath (RefStr elementId) with
  | Ok v => Ok v
  | Err e => Err (GraphQLWrapped "Surface area computation failed" e)
  end.

(** geometry_resolvers.resolve_get_element_geometry (no role gate). *)
Definition resolve_get_element_geometry {V}
    (export_element_geometry : string -> element_ref -> result (list (string * V)))
    (role : option string) (filePath elementId : string) : result (geometry_response V) :=
  match export_element_geometry filePath (RefStr elementId) with
  | Ok payload =>
      if role_is role ["client"]%string then Ok (MaskedPayload (mask_for_client payload))
      else Ok (FullPayload payload)
  | Err e => Err (GraphQLWrapped "getElementGeometry failed" e)
  end.

(** lifecycle_service._ifc_type: every exception gives "default". *)
Definition _ifc_type (file_path : string) (element_id : element_ref) : string :=
  match (model <- _open_ifc P file_path ;; _get_element (global_id P) model element_id) with
  | Ok (Some el) => is_a el
  | Ok None => "default"%string
  | Err _ => "default"%string
  end.

(** lifecycle_service.calculate_element_material_usage *)
Definition calculate_element_material_usage (file_path : string) (element_id : element_ref)
    (density : option Q) : result Q :=
  vol_m3 <- compute_element_volume file_path element_id ;;
  let etype := _ifc_type file_path element_id in
  let rho := match density with Some d => d | None => table_get DENSITY_BY_IFC etype end in
  let mass_kg := Qmax 0 (vol_m3 * rho) in
  Ok (py_round mass_kg 3).

(** lifecycle_service.calculate_element_embodied_carbon *)
Definition calculate_element_embodied_carbon (file_path : string) (element_id : element_ref)
    (carbon_factor density : option Q) : result Q :=
  let etype := _ifc_type file_path element_id in
  let factor := match carbon_factor with
                | Some f => f
                | None => table_get EC_FACTOR_BY_IFC etype
                end in
  mass_kg <- calculate_element_material_usage file_path element_id density ;;
  let kgco2e := Qmax 0 (mass_kg * factor) in
  Ok (py_round kgco2e 3).

Definition element_material_usage (file_path : string) (element_id : element_ref) : result Q :=
  calculate_element_material_usage file_path element_id None.

Definition element_embodied_carbon (file_path : string) (element_id : element_ref) : result Q :=
  calculate_element_embodied_carbon file_path element_id None None.

(** lifecycle_resolvers *)
Definition resolve_element_material_usage (role : option string) (filePath elementId : string)
    : result Q :=
  _ <- require_role role ["engineer"; "architect"]%string ;;
  match element_material_usage filePath (RefStr elementId) with
  | Ok v => Ok v
  | Err e => Err (GraphQLWrapped "elementMaterialUsage failed" e)
  end.

Definition resolve_element_embodied_carbon (role : option string) (filePath elementId : string)
    : result Q :=
  _ <- require_role role ["engineer"; "architect"]%string ;;
  match element_embodied_carbon filePath (RefStr elementId) with
  | Ok v => Ok v
  | Err e => Err (GraphQLWrapped "elementEmbodiedCarbon failed" e)
  end.

(** ifc_service: [_settings(world, disable_openings)] and the local fallback
    loop [for s in (base_s, alt_s)]: [create_shape(s, el).geometry], then
    volume and surface properties of it ([vol_props], [surf_props]; each may
    raise), rounded to 4 places; an exception moves to the next settings with
    what was already assigned. *)
Definition _settings (world disable_openings : bool) : settings :=
  _make_settings world disable_openings false.

Variable vol_props surf_props : list vec3 * list face -> result Q.

(** A warning [print(f"... {el.GlobalId} ...")]: it reads the attribute. *)
Definition warn (el : Elem) : result unit :=
  _ <- get_GlobalId el ;; Ok tt.

Fixpoint local_fallback (el : Elem) (ss : list settings) (volume surface_area : option Q)
    : result (option Q * option Q) :=
  match ss with
  | [] => Ok (volume, surface_area)
  | s :: rest =>
      match create_shape_mesh P s el with
      | Err _ => _ <- warn el ;; local_fallback el rest volume surface_area
      | Ok shape =>
          match (match volume with
                 | None => v <- vol_props shape ;; Ok (Some (py_round v 4))
                 | Some v => Ok (Some v)
                 end) with
          | Err _ => _ <- warn el ;; local_fallback el rest volume surface_area
          | Ok volume' =>
              match (match surface_area with
                     | None => a <- surf_props shape ;; Ok (Some (py_round a 4))
                     | Some a => Ok (Some a)
                     end) with
              | Err _ => _ <- warn el ;; local_fallback el rest volume' surface_area
              | Ok surface_area' =>
                  match volume', surface_area' with
                  | Some _, Some _ => Ok (volume', surface_area')      (* break *)
                  | _, _ => local_fallback el rest volume' surface_area'
                  end
              end
          end
      end
  end.

(** The loop body of [elements_by_type] for one element; an exception it
    raises (a warning or the row reading [el.GlobalId]) leaves the loop. *)
Definition element_row (file_path : string) (el : Elem) : result ifc_element_row :=
  let sid := step_id el in
  volume <- match compute_element_volume file_path (RefInt sid) with
            | Ok v => Ok (Some v)
            | Err _ => _ <- warn el ;; Ok None
            end ;;
  surface_area <- match compute_element_surface_area file_path (RefInt sid) with
                  | Ok a => Ok (Some a)
                  | Err _ => _ <- warn el ;; Ok None
                  end ;;
  vs <- match volume, surface_area with
        | Some _, Some _ => Ok (volume, surface_area)
        | _, _ => local_fallback el [_settings true false; _settings true true] volume surface_area
        end ;;
  gid <- get_GlobalId el ;;
  Ok {| row_id := gid; row_name := name el; row_type := is_a el;
        row_area := snd vs; row_volume := fst vs |}.

(** [for el in elements: ... results.append(...)] *)
Fixpoint element_rows (file_path : string) (els : list Elem) : result (list ifc_element_row) :=
  match els with
  | [] => Ok []
  | el :: rest =>
      row <- element_row file_path el ;;
      rows <- element_rows file_path rest ;;
      Ok (row :: rows)
  end.

(** ifc_service.elements_by_type: any exception gives []. *)
Definition elements_by_type (file_path element_type : string) : list ifc_element_row :=
  match ifc_open P file_path with
  | Err _ => []
  | Ok model =>
      match element_rows file_path (by_type model element_type) with
      | Ok rows => rows
      | Err _ => []
      end
  end.

(** ifc_resolvers.resolve_elements_by_type ([elements_by_type] catches every
    exception, so its [except] branch is never taken). *)
Definition resolve_elements_by_type (filePath elementType : string)
    : result (list ifc_element_row) :=
  if negb (isfile P filePath) then Err (GraphQLError ("File not found: " ++ filePath))
  else Ok (elements_by_type filePath elementType).

End Services.

Arguments compute_element_volume {Elem Shape} _ _ _ _.
Arguments compute_element_surface_area {Elem Shape} _ _ _ _.
Arguments _footprint_polygon_for_element {Elem Shape} _ {Region} _ _ _ _ _.
Arguments overlaps_2d_on_storey {Elem Shape} _ {Region} _ _ _ _ _ _ _ _.
Arguments resolve_pairwise_clash {Elem Shape} _ _ _ _ _ _.
Arguments resolve_pair_clash_with_geometry {Elem Shape} _ _ {V} _ _ _ _ _.
Arguments resolve_element_volume {Elem Shape} _ _ _ _ _.
Arguments resolve_element_surface_area {Elem Shape} _ _ _ _ _.
Arguments _ifc_type {Elem Shape} _ _ _ _.
Arguments calculate_element_material_usage {Elem Shape} _ _ _ _ _ _.
Arguments calculate_element_embodied_carbon {Elem Shape} _ _ _ _ _ _ _.
Arguments element_material_usage {Elem Shape} _ _ _ _ _.
Arguments element_embodied_carbon {Elem Shape} _ _ _ _ _.
Arguments resolve_element_material_usage {Elem Shape} _ _ _ _ _ _.
Arguments resolve_element_embodied_carbon {Elem Shape} _ _ _ _ _ _.
Arguments warn {Elem} _ _.
Arguments local_fallback {Elem Shape} _ _ _ _ _ _ _ _.
Arguments element_row {Elem Shape} _ _ _ _ _ _ _ _ _ _ _.
Arguments element_rows {Elem Shape} _ _ _ _ _ _ _ _ _ _ _.
Arguments elements_by_type {Elem Shape} _ _ _ _ _ _ _ _ _ _ _.
Arguments resolve_elements_by_type {Elem Shape} _ _ _ _ _ _ _ _ _ _ _.

(** Concrete collaborators for the services above. *)
Module ServiceDemo.

(** A wall box [0,2]^2 x [0,1], a door box, and a wall without solid or mesh. *)
Definition lca_elems : list Demo.demo_elem :=
  [ {| Demo.de_guid := "wall"; Demo.de_type := "IfcWall";
       Demo.de_solid := Some (Demo.mk_box 0 0 0 2 2 1);
       Demo.de_mesh := Some (Demo.slab_mesh 0 0 2 2 0 1) |};
    {| Demo.de_guid := "door"; Demo.de_type := "IfcDoor";
       Demo.de_solid := Some (Demo.mk_box 0 0 0 1 1 1);
       Demo.de_mesh := Some (Demo.slab_mesh 1 1 3 3 0 1) |};
    {| Demo.de_guid := "ghost"; Demo.de_type := "IfcWall"; Demo.de_solid := None;
       Demo.de_mesh := None |} ]%string.

(** A geometry payload with both public and raw keys. *)
Definition payload : list (string * string) :=
  [("matrix", "I"); ("location", "0,0,0"); ("vertices", "v"); ("faces", "f");
   ("id", "wall"); ("glbUrl", "/static/geometry/wall.glb")]%string.

End ServiceDemo.

(* ======================================================================== *)
(** * Properties *)

(** ** Comparison and rounding helpers *)

Lemma Qltb_true x y : Qltb x y = true <-> x < y.
Proof.
  unfold Qltb. rewrite negb_true_iff. split; intro H.
  - apply Qnot_le_lt. intro H'. apply Qle_bool_iff in H'. congruence.
  - destruct (Qle_bool y x) eqn:E; auto.
    apply Qle_bool_iff in E. exfalso. exact (Qlt_not_le _ _ H E).
Qed.

Lemma Qltb_false x y : Qltb x y = false <-> y <= x.
Proof.
  unfold Qltb. rewrite negb_false_iff. apply Qle_bool_iff.
Qed.

Lemma Qle_bool_compat x x' y y' :
  x == x' -> y == y' -> Qle_bool x y = Qle_bool x' y'.
Proof.
  intros Hx Hy.
  destruct (Qle_bool x y) eqn:E1; destruct (Qle_bool x' y') eqn:E2; auto.
  - apply Qle_bool_iff in E1. rewrite Hx, Hy in E1. apply Qle_bool_iff in E1. congruence.
  - apply Qle_bool_iff in E2. rewrite <- Hx, <- Hy in E2. apply Qle_bool_iff in E2. congruence.
Qed.

Lemma Qltb_compat x x' y y' : x == x' -> y == y' -> Qltb x y = Qltb x' y'.
Proof. intros Hx Hy. unfold Qltb. f_equal. apply Qle_bool_compat; auto. Qed.

Lemma py_round_compat x x' dp : x == x' -> py_round x dp = py_round x' dp.
Proof.
  intro H. unfold py_round.
  assert (Hy : x * inject_Z (Z.pos (pow10 dp)) == x' * inject_Z (Z.pos (pow10 dp)))
    by (rewrite H; reflexivity).
  rewrite (Qfloor_comp _ _ Hy).
  set (n := Qfloor (x' * inject_Z (Z.pos (pow10 dp)))).
  assert (Hf : x * inject_Z (Z.pos (pow10 dp)) - inject_Z n ==
               x' * inject_Z (Z.pos (pow10 dp)) - inject_Z n) by (rewrite Hy; reflexivity).
  rewrite (Qltb_compat _ _ (1#2) (1#2) Hf (Qeq_refl _)).
  rewrite (Qltb_compat (1#2) (1#2) _ _ (Qeq_refl _) Hf).
  reflexivity.
Qed.

Lemma _round_compat x x' dp : x == x' -> _round x dp = _round x' dp.
Proof.
  intro H. unfold _round.
  assert (Ha : Qabs x == Qabs x') by (rewrite H; reflexivity).
  rewrite (Qltb_compat _ _ _EPS _EPS Ha (Qeq_refl _)).
  destruct (Qltb (Qabs x') _EPS); [reflexivity | apply py_round_compat; exact H].
Qed.

Lemma Qred_nonneg (m : Z) (p : positive) : (0 <= m)%Z -> 0 <= Qred (m # p).
Proof.
  intro Hm. rewrite (Qred_correct (m # p)). unfold Qle. simpl. lia.
Qed.

Lemma py_round_nonneg x dp : 0 <= x -> 0 <= py_round x dp.
Proof.
  intro Hx. unfold py_round.
  assert (Hn : (0 <= Qfloor (x * inject_Z (Z.pos (pow10 dp))))%Z).
  { change 0%Z with (Qfloor 0). apply Qfloor_resp_le.
    apply Qmult_le_0_compat; [exact Hx | unfold Qle; simpl; lia]. }
  destruct (Qltb _ (1#2)); [apply Qred_nonneg; exact Hn |].
  destruct (Qltb (1#2) _); [apply Qred_nonneg; lia |].
  destruct (Z.even _); apply Qred_nonneg; lia.
Qed.

Lemma _round_nonneg x dp : 0 <= x -> 0 <= _round x dp.
Proof.
  intro Hx. unfold _round. destruct (Qltb (Qabs x) _EPS).
  - apply Qle_refl.
  - apply py_round_nonneg; exact Hx.
Qed.

Lemma _round_noise x dp : Qabs x < _EPS -> _round x dp = 0.
Proof.
  intro H. unfold _round. apply Qltb_true in H. rewrite H. reflexivity.
Qed.

Lemma Qmax_0_nonneg x : 0 <= Qmax 0 x.
Proof. apply Q.le_max_l. Qed.

Lemma box_is_out_sym b1 b2 : box_is_out b1 b2 = box_is_out b2 b1.
Proof.
  unfold box_is_out.
  destruct (Qltb (bxmax b1) (bxmin b2)), (Qltb (bxmax b2) (bxmin b1)),
           (Qltb (bymax b1) (bymin b2)), (Qltb (bymax b2) (bymin b1)),
           (Qltb (bzmax b1) (bzmin b2)), (Qltb (bzmax b2) (bzmin b1)); reflexivity.
Qed.

Lemma _bbox_disjoint_sym {Shape} (K : occ_kernel Shape) s1 s2 :
  _bbox_disjoint K s1 s2 = _bbox_disjoint K s2 s1.
Proof.
  unfold _bbox_disjoint. destruct (bbox_add K); [apply box_is_out_sym | reflexivity].
Qed.

(** ** Pairwise 3D clash (geometry_service.clash_between) *)

Section ClashFacts.

Variable Elem Shape : Type.

Lemma topods_of_unresolvable (P : shape_provider Elem Shape) file_path r :
  unresolvable P file_path r -> exists e, _topods_for_element P file_path r = Err e.
Proof.
  unfold unresolvable, _topods_for_element.
  destruct (_open_ifc P file_path) as [model|e]; simpl; [|eauto].
  destruct (_get_element (global_id P) model r) as [[el|]|e]; simpl; eauto.
  intros [H1 H2]. unfold _create_shape_with_fallback.
  destruct (create_shape_brep P (_make_settings true false true) el); [discriminate|].
  destruct (create_shape_brep P (_make_settings true true true) el); [discriminate|eauto].
Qed.

Lemma clash_between_resolved (P : shape_provider Elem Shape) (K : occ_kernel Shape)
    file_path a b sa sb :
  _topods_for_element P file_path a = Ok sa ->
  _topods_for_element P file_path b = Ok sb ->
  clash_between P K file_path a b =
    Ok (if _bbox_disjoint K sa sb then 0
        else _round (Qmax 0 (volume_mass K (brep_common K sa sb))) _CLASH_DP).
Proof.
  intros Ha Hb. unfold clash_between. rewrite Ha, Hb. simpl.
  destruct (_bbox_disjoint K sa sb); reflexivity.
Qed.

(** C2: when either element reference cannot be resolved to a shape (not
    found, or creation fails even after the fallback without opening
    subtractions), [clash_between] raises; it never returns a number, in
    particular never 0.0. *)
Theorem clash_between_unresolvable_raises :
  forall (P : shape_provider Elem Shape) (K : occ_kernel Shape) file_path a b,
    unresolvable P file_path a \/ unresolvable P file_path b ->
    (exists e, clash_between P K file_path a b = Err e) /\
    (forall v, clash_between P K file_path a b <> Ok v).
Proof.
  intros P K file_path a b Hu.
  assert (He : exists e, clash_between P K file_path a b = Err e).
  { unfold clash_between.
    destruct Hu as [Ha | Hb].
    - destruct (topods_of_unresolvable _ _ _ Ha) as [e ->]. simpl. eauto.
    - destruct (_topods_for_element P file_path a) as [sa|e]; simpl; [|eauto].
      destruct (topods_of_unresolvable _ _ _ Hb) as [e ->]. simpl. eauto. }
  split; [exact He|]. intros v Hv. destruct He as [e He]. congruence.
Qed.

(** C5: if the bounding boxes of the two shapes are separated,
    [clash_between] returns 0.0 whatever the boolean common and the volume
    integral would give (they are not consulted); without the bbox helper the
    cull reports "not disjoint" and the exact volume is computed. *)
Theorem clash_between_bbox_cull :
  forall (P : shape_provider Elem Shape) (K : occ_kernel Shape) file_path a b sa sb,
    _topods_for_element P file_path a = Ok sa ->
    _topods_for_element P file_path b = Ok sb ->
    (forall add, bbox_add K = Some add -> box_is_out (add sa) (add sb) = true ->
       forall K' : occ_kernel Shape, bbox_add K' = bbox_add K ->
       clash_between P K' file_path a b = Ok 0) /\
    (bbox_add K = None ->
       _bbox_disjoint K sa sb = false /\
       clash_between P K file_path a b =
         Ok (_round (Qmax 0 (volume_mass K (brep_common K sa sb))) _CLASH_DP)).
Proof.
  intros P K file_path a b sa sb Ha Hb. split.
  - intros add Hadd Hout K' HK'.
    rewrite (clash_between_resolved P K' _ _ _ _ _ Ha Hb).
    unfold _bbox_disjoint. rewrite HK', Hadd, Hout. reflexivity.
  - intros Hnone.
    assert (Hd : _bbox_disjoint K sa sb = false) by (unfold _bbox_disjoint; rewrite Hnone; reflexivity).
    split; [exact Hd|].
    rewrite (clash_between_resolved P K _ _ _ _ _ Ha Hb), Hd. reflexivity.
Qed.

Lemma _round_grid x dp : exists m : Z, _round x dp == m # pow10 dp.
Proof.
  unfold _round. destruct (Qltb (Qabs x) _EPS).
  - exists 0%Z. unfold Qeq. simpl. reflexivity.
  - unfold py_round.
    eexists. apply Qred_correct.
Qed.

Lemma Qmax_0_neg x : x < 0 -> Qmax 0 x = 0.
Proof.
  intro H. unfold Qmax, GenericMinMax.gmax.
  destruct (Qcompare 0 x) eqn:E; auto.
  apply Qlt_alt in E. exfalso. exact (Qlt_irrefl _ (Qlt_trans _ _ _ E H)).
Qed.

Lemma _round_Qmax_noise x dp : Qabs x < _EPS -> _round (Qmax 0 x) dp = 0.
Proof.
  intro H. destruct (Qlt_le_dec x 0) as [Hn | Hp].
  - rewrite (Qmax_0_neg _ Hn). reflexivity.
  - apply _round_noise. rewrite Q.max_r by exact Hp. exact H.
Qed.

(** C6: for resolvable elements the clash volume is a non-negative number:
    negative raw volumes become 0, raw magnitudes below 1e-12 become exactly
    0, otherwise the clamped volume is rounded to 6 decimals; a raw volume of
    1e-13 yields 0 and a raw volume of 0.0005 is reported as 0.0005. *)
Theorem clash_between_volume_clamped_rounded :
  forall (P : shape_provider Elem Shape) (K : occ_kernel Shape) file_path a b sa sb,
    _topods_for_element P file_path a = Ok sa ->
    _topods_for_element P file_path b = Ok sb ->
    let raw := volume_mass K (brep_common K sa sb) in
    exists v, clash_between P K file_path a b = Ok v /\
      0 <= v /\
      (exists m : Z, v == m # pow10 6) /\
      (_bbox_disjoint K sa sb = false -> v = _round (Qmax 0 raw) 6) /\
      (raw < 0 -> v = 0) /\
      (Qabs raw < _EPS -> v = 0) /\
      (raw = 1 # 10000000000000 -> v = 0) /\
      (_bbox_disjoint K sa sb = false -> raw = 5 # 10000 -> v == 5 # 10000).
Proof.
  intros P K file_path a b sa sb Ha Hb raw.
  rewrite (clash_between_resolved P K _ _ _ _ _ Ha Hb).
  eexists. split; [reflexivity|].
  fold raw.
  destruct (_bbox_disjoint K sa sb) eqn:Hd.
  - repeat split; try discriminate; try (intros; reflexivity).
    exists 0%Z. reflexivity.
  - repeat split.
    + apply _round_nonneg, Qmax_0_nonneg.
    + apply _round_grid.
    + intros Hn. rewrite (Qmax_0_neg _ Hn). reflexivity.
    + apply _round_Qmax_noise.
    + intros Hr. apply _round_Qmax_noise. rewrite Hr. reflexivity.
    + intros _ Hr. rewrite Hr. reflexivity.
Qed.

(** C8: the clash volume is symmetric for resolvable elements, given that the
    volume of the boolean common does not depend on the operand order. *)
Theorem clash_between_symmetric :
  forall (P : shape_provider Elem Shape) (K : occ_kernel Shape) file_path a b sa sb,
    _topods_for_element P file_path a = Ok sa ->
    _topods_for_element P file_path b = Ok sb ->
    volume_mass K (brep_common K sa sb) == volume_mass K (brep_common K sb sa) ->
    clash_between P K file_path a b = clash_between P K file_path b a.
Proof.
  intros P K file_path a b sa sb Ha Hb Hcomm.
  rewrite (clash_between_resolved P K _ _ _ _ _ Ha Hb).
  rewrite (clash_between_resolved P K _ _ _ _ _ Hb Ha).
  rewrite (_bbox_disjoint_sym K sb sa).
  destruct (_bbox_disjoint K sa sb); [reflexivity|].
  f_equal. apply _round_compat. rewrite Hcomm. reflexivity.
Qed.

End ClashFacts.


(** ** The 3D batch sweep (resolve_detect_clashes) *)

Section SweepFacts.

Variable Elem Shape : Type.

Lemma sweep_pairs_err (P : shape_provider Elem Shape) (K : occ_kernel Shape) file_path
    pairs a b e :
  In (a, b) pairs ->
  clash_between P K file_path (RefStr a) (RefStr b) = Err e ->
  exists e', sweep_pairs P K file_path pairs = Err e'.
Proof.
  induction pairs as [|[x y] rest IH]; simpl; [tauto|].
  intros [Heq | Hin] Hc.
  - inversion Heq; subst. rewrite Hc. simpl. eauto.
  - destruct (clash_between P K file_path (RefStr x) (RefStr y)); simpl; [|eauto].
    destruct (IH Hin Hc) as [e' ->]. simpl. eauto.
Qed.

(** C1 (as amended): a resolution failure on any enumerated pair aborts the
    whole sweep: [resolve_detect_clashes] raises
    [GraphQLError("detectClashes failed: ...")] and returns no rows. *)
Theorem resolve_detect_clashes_failure_aborts_sweep :
  forall (P : shape_provider Elem Shape) (K : occ_kernel Shape) role filePath model a b e,
    require_role role ["engineer"; "architect"]%string = Ok tt ->
    isfile P filePath = true ->
    ifc_open P filePath = Ok model ->
    In (a, b) (combinations2 (collect_guids P model)) ->
    clash_between P K filePath (RefStr a) (RefStr b) = Err e ->
    exists e', resolve_detect_clashes P K role filePath =
               Err (GraphQLWrapped "detectClashes failed" e').
Proof.
  intros P K role filePath model a b e Hrole Hfile Hopen Hin Hc.
  unfold resolve_detect_clashes. rewrite Hrole. simpl. rewrite Hfile. simpl.
  rewrite Hopen. simpl.
  destruct (sweep_pairs_err P K filePath _ _ _ _ Hin Hc) as [e' ->]. eauto.
Qed.

End SweepFacts.

(** C1 counterexample: in a file with two overlapping walls (their clash
    volume alone is 1.0), a slab whose shape cannot be built and a beam, the
    sweep does not return the walls' clash: the whole run fails. *)
Lemma resolve_detect_clashes_one_bad_element :
  clash_between Demo.sweep_provider Demo.box_kernel "model.ifc" (RefStr "wallA") (RefStr "wallB")
    = Ok 1 /\
  resolve_detect_clashes Demo.sweep_provider Demo.box_kernel (Some "engineer"%string) "model.ifc"
    = Err (GraphQLWrapped "detectClashes failed" (LibraryError "Failed to process shape")).
Proof. split; vm_compute; reflexivity. Qed.

Lemma resolve_detect_clashes_failure_aborts_sweep_witness :
  exists e', resolve_detect_clashes Demo.sweep_provider Demo.box_kernel
               (Some "engineer"%string) "model.ifc" =
             Err (GraphQLWrapped "detectClashes failed" e').
Proof.
  apply (resolve_detect_clashes_failure_aborts_sweep nat box Demo.sweep_provider Demo.box_kernel
           (Some "engineer"%string) "model.ifc" (Demo.demo_model Demo.sweep_elems)
           "wallA" "slabC" (LibraryError "Failed to process shape")).
  - vm_compute. reflexivity.
  - vm_compute. reflexivity.
  - vm_compute. reflexivity.
  - vm_compute. auto 20.
  - vm_compute. reflexivity.
Defined.

Lemma clash_between_unresolvable_raises_witness :
  unresolvable Demo.sweep_provider "model.ifc" (RefStr "slabC") /\
  forall v, clash_between Demo.sweep_provider Demo.box_kernel "model.ifc"
              (RefStr "wallA") (RefStr "slabC") <> Ok v.
Proof.
  assert (H : unresolvable Demo.sweep_provider "model.ifc" (RefStr "slabC"))
    by (vm_compute; split; reflexivity).
  split; [exact H|].
  apply (clash_between_unresolvable_raises nat box Demo.sweep_provider Demo.box_kernel
           "model.ifc" (RefStr "wallA") (RefStr "slabC")).
  right. exact H.
Defined.

Lemma clash_between_bbox_cull_witness :
  clash_between Demo.sweep_provider Demo.box_kernel "model.ifc" (RefStr "wallA") (RefStr "beamD")
    = Ok 0.
Proof.
  apply (proj1 (clash_between_bbox_cull nat box Demo.sweep_provider Demo.box_kernel "model.ifc"
                  (RefStr "wallA") (RefStr "beamD")
                  (Demo.mk_box 0 0 0 2 2 2) (Demo.mk_box 10 10 10 11 11 11)
                  ltac:(vm_compute; reflexivity) ltac:(vm_compute; reflexivity))
           (fun b => b) eq_refl).
  - vm_compute. reflexivity.
  - reflexivity.
Defined.

Lemma clash_between_volume_clamped_rounded_witness :
  exists v, clash_between Demo.sweep_provider Demo.box_kernel "model.ifc"
              (RefStr "wallA") (RefStr "wallB") = Ok v /\ 0 <= v.
Proof.
  destruct (clash_between_volume_clamped_rounded nat box Demo.sweep_provider Demo.box_kernel
              "model.ifc" (RefStr "wallA") (RefStr "wallB")
              (Demo.mk_box 0 0 0 2 2 2) (Demo.mk_box 1 1 1 3 3 3)
              ltac:(vm_compute; reflexivity) ltac:(vm_compute; reflexivity))
    as [v [Hv [Hnn _]]].
  exists v. split; assumption.
Defined.

Lemma clash_between_symmetric_witness :
  clash_between Demo.sweep_provider Demo.box_kernel "model.ifc" (RefStr "wallA") (RefStr "wallB")
  = clash_between Demo.sweep_provider Demo.box_kernel "model.ifc" (RefStr "wallB") (RefStr "wallA").
Proof.
  apply (clash_between_symmetric nat box Demo.sweep_provider Demo.box_kernel "model.ifc"
           (RefStr "wallA") (RefStr "wallB")
           (Demo.mk_box 0 0 0 2 2 2) (Demo.mk_box 1 1 1 3 3 3)).
  - vm_compute. reflexivity.
  - vm_compute. reflexivity.
  - vm_compute. reflexivity.
Defined.

(** ** Dicts, sub-sequences and Z ranges *)

Lemma string_eqb_true a b : string_eqb a b = true <-> a = b.
Proof. unfold string_eqb. destruct (string_dec a b); split; congruence. Qed.

Lemma dict_set_in {A} k v (d : list (string * A)) k' v' :
  In (k', v') (dict_set k v d) -> (k' = k /\ v' = v) \/ In (k', v') d.
Proof.
  induction d as [|[k0 v0] rest IH]; simpl.
  - intros [H | []]. inversion H; subst. auto.
  - destruct (string_eqb k k0) eqn:E; simpl.
    + intros [H | H]; [inversion H; subst; auto | auto].
    + intros [H | H]; [auto|]. destruct (IH H) as [? | ?]; auto.
Qed.

Lemma dict_set_keys {A} k v (d : list (string * A)) x :
  In x (map fst (dict_set k v d)) <-> x = k \/ In x (map fst d).
Proof.
  induction d as [|[k0 v0] rest IH]; simpl.
  - intuition congruence.
  - destruct (string_eqb k k0) eqn:E; simpl.
    + apply string_eqb_true in E. subst. intuition congruence.
    + rewrite IH. intuition congruence.
Qed.

Lemma dict_set_nodup {A} k v (d : list (string * A)) :
  NoDup (map fst d) -> NoDup (map fst (dict_set k v d)).
Proof.
  induction d as [|[k0 v0] rest IH]; simpl; intros Hnd.
  - constructor; [simpl; tauto | constructor].
  - inversion Hnd as [|? ? Hnin Hnd']; subst.
    destruct (string_eqb k k0) eqn:E; simpl.
    + apply string_eqb_true in E. subst. constructor; assumption.
    + constructor; [|apply IH; assumption].
      rewrite dict_set_keys. intros [Heq | Hin]; [|contradiction].
      assert (string_eqb k k0 = true) by (apply string_eqb_true; congruence). congruence.
Qed.

Lemma nodup_assoc_unique {A} (l : list (string * A)) k v v' :
  NoDup (map fst l) -> In (k, v) l -> In (k, v') l -> v = v'.
Proof.
  induction l as [|[k0 v0] rest IH]; simpl; [tauto|].
  intros Hnd H1 H2. inversion Hnd as [|? ? Hnin Hnd']; subst.
  destruct H1 as [H1 | H1]; destruct H2 as [H2 | H2].
  - inversion H1; inversion H2; subst; reflexivity.
  - inversion H1; subst. exfalso. apply Hnin. apply (in_map fst _ (k, v') H2).
  - inversion H2; subst. exfalso. apply Hnin. apply (in_map fst _ (k, v) H1).
  - apply IH; assumption.
Qed.

Lemma sublist_nil_l {A} (l : list A) : sublist [] l.
Proof. induction l; constructor; assumption. Qed.

Lemma sublist_refl {A} (l : list A) : sublist l l.
Proof. induction l; constructor; assumption. Qed.

Lemma sublist_app {A} (l1 l2 m1 m2 : list A) :
  sublist l1 l2 -> sublist m1 m2 -> sublist (l1 ++ m1) (l2 ++ m2).
Proof.
  intros H1 H2. induction H1; simpl; [assumption | constructor; assumption | constructor; assumption].
Qed.

Lemma sublist_flat_map {A B} (f g : A -> list B) (l : list A) :
  (forall x, In x l -> sublist (f x) (g x)) -> sublist (flat_map f l) (flat_map g l).
Proof.
  induction l as [|x rest IH]; simpl; intros H.
  - constructor.
  - apply sublist_app; [apply H; auto | apply IH; intros; apply H; auto].
Qed.

Lemma sublist_in {A} (l1 l2 : list A) x : sublist l1 l2 -> In x l1 -> In x l2.
Proof. intros H. induction H; simpl; intuition. Qed.

Lemma sublist_length {A} (l1 l2 : list A) : sublist l1 l2 -> (List.length l1 <= List.length l2)%nat.
Proof. intros H. induction H; simpl; lia. Qed.

Lemma fold_min_le (xs : list Q) x : fold_left Qmin xs x <= x.
Proof.
  revert x. induction xs as [|y ys IH]; simpl; intros x; [apply Qle_refl|].
  eapply Qle_trans; [apply IH | apply Q.le_min_l].
Qed.

Lemma fold_max_ge (xs : list Q) x : x <= fold_left Qmax xs x.
Proof.
  revert x. induction xs as [|y ys IH]; simpl; intros x; [apply Qle_refl|].
  eapply Qle_trans; [apply Q.le_max_l | apply IH].
Qed.

Lemma _z_range_ordered verts : fst (_z_range verts) <= snd (_z_range verts).
Proof.
  unfold _z_range. destruct (map (fun '(_, _, z) => z) verts) as [|z zs]; simpl; [apply Qle_refl|].
  unfold list_min, list_max. eapply Qle_trans; [apply fold_min_le | apply fold_max_ge].
Qed.

(** ** The plan-clash scan (wkt_clash_service.detect_plan_clashes) *)

Section PlanFacts.

Variable Elem Shape Region : Type.
Variable F : footprint_ops Region.
Variable O : overlay_ops Region.

Lemma plan_scan_nil_r z_tolerance return_wkt a_data :
  plan_scan F O z_tolerance return_wkt a_data [] = [].
Proof. unfold plan_scan. induction a_data; simpl; auto. Qed.

(** The early return on an empty side is the scan of that side. *)
Lemma detect_plan_clashes_scan (P : shape_provider Elem Shape) file_path a_type b_type
    z_tolerance return_wkt :
  detect_plan_clashes F O P file_path a_type b_type z_tolerance return_wkt =
    (model <- _open_ifc P file_path ;;
     a_data <- build_data F P (by_type model a_type) ;;
     b_data <- build_data F P (by_type model b_type) ;;
     Ok (plan_scan F O z_tolerance return_wkt a_data b_data)).
Proof.
  unfold detect_plan_clashes.
  destruct (_open_ifc P file_path) as [model|e]; simpl; auto.
  destruct (build_data F P (by_type model a_type)) as [ad|e]; simpl; auto.
  destruct (build_data F P (by_type model b_type)) as [bd|e]; simpl; auto.
  destruct ad as [|a ad]; [reflexivity|].
  destruct bd as [|b bd]; [rewrite plan_scan_nil_r; reflexivity | reflexivity].
Qed.

Lemma in_plan_scan z_tolerance return_wkt a_data b_data r :
  In r (plan_scan F O z_tolerance return_wkt a_data b_data) <->
  exists a b, In a a_data /\ In b b_data /\ In r (pair_step F O z_tolerance return_wkt a b).
Proof.
  unfold plan_scan. rewrite in_flat_map. split.
  - intros [a [Ha Hr]]. rewrite in_flat_map in Hr. destruct Hr as [b [Hb Hr]]. eauto.
  - intros [a [b [Ha [Hb Hr]]]]. exists a. split; [exact Ha|]. rewrite in_flat_map. eauto.
Qed.

Lemma in_pair_step z_tolerance return_wkt aid A bid B r :
  In r (pair_step F O z_tolerance return_wkt (aid, A) (bid, B)) ->
  z_culled z_tolerance A B = false /\ aId r = aid /\ bId r = bid /\
  is_empty F (intersection O (pd_fp A) (pd_fp B)) = false /\
  0 < geom_area O (intersection O (pd_fp A) (pd_fp B)) /\
  area r = py_round (geom_area O (intersection O (pd_fp A) (pd_fp B))) 6.
Proof.
  unfold pair_step. destruct (z_culled z_tolerance A B); [simpl; tauto|].
  unfold emit_intersection.
  destruct (is_empty F (intersection O (pd_fp A) (pd_fp B))) eqn:He; simpl; [tauto|].
  destruct (Qltb 0 (geom_area O (intersection O (pd_fp A) (pd_fp B)))) eqn:Hq; simpl; [|tauto].
  intros [<- | []]. simpl. apply Qltb_true in Hq. repeat split; auto.
Qed.

Lemma build_data_from_nodup (P : shape_provider Elem Shape) acc es d :
  NoDup (map fst acc) -> build_data_from F P acc es = Ok d -> NoDup (map fst d).
Proof.
  revert acc. induction es as [|e rest IH]; simpl; intros acc Hnd H.
  - inversion H; subst; exact Hnd.
  - destruct (_prep F P e) as [od|err]; simpl in H; [|discriminate].
    eapply IH; [|exact H].
    destruct od as [d'|]; [|exact Hnd].
    destruct (negb (is_empty F (pd_fp d'))); [apply dict_set_nodup|]; exact Hnd.
Qed.

Lemma build_data_nodup (P : shape_provider Elem Shape) es d :
  build_data F P es = Ok d -> NoDup (map fst d).
Proof. apply build_data_from_nodup. constructor. Qed.

Lemma _prep_ordered (P : shape_provider Elem Shape) e d :
  _prep F P e = Ok (Some d) -> pd_zmin d <= pd_zmax d.
Proof.
  unfold _prep.
  destruct (global_id P e) as [[|c s]|]; try discriminate.
  destruct (_mesh_world P e) as [[V Fs]|err]; simpl; [|discriminate].
  destruct V as [|v V]; [discriminate|]. destruct Fs as [|f Fs]; [discriminate|].
  pose proof (_z_range_ordered (v :: V)) as Hz.
  destruct (_z_range (v :: V)) as [zmin zmax].
  destruct (_footprint_polygon F (v :: V) (f :: Fs) default_buffer_eps); simpl; [|discriminate].
  intros H. inversion H; subst. exact Hz.
Qed.

Lemma build_data_from_ordered (P : shape_provider Elem Shape) acc es d :
  (forall k A, In (k, A) acc -> pd_zmin A <= pd_zmax A) ->
  build_data_from F P acc es = Ok d ->
  forall k A, In (k, A) d -> pd_zmin A <= pd_zmax A.
Proof.
  revert acc. induction es as [|e rest IH]; simpl; intros acc Hacc H.
  - inversion H; subst; exact Hacc.
  - destruct (_prep F P e) as [od|err] eqn:Hp; simpl in H; [|discriminate].
    eapply IH; [|exact H].
    destruct od as [d'|]; [|exact Hacc].
    destruct (negb (is_empty F (pd_fp d'))); [|exact Hacc].
    intros k A Hin. destruct (dict_set_in _ _ _ _ _ Hin) as [[_ ->] | Hold].
    + exact (_prep_ordered P e d' Hp).
    + exact (Hacc k A Hold).
Qed.

Lemma build_data_ordered (P : shape_provider Elem Shape) es d :
  build_data F P es = Ok d -> forall k A, In (k, A) d -> pd_zmin A <= pd_zmax A.
Proof. apply build_data_from_ordered. simpl. tauto. Qed.

Lemma build_data_from_nonempty (P : shape_provider Elem Shape) acc es d :
  (forall k A, In (k, A) acc -> is_empty F (pd_fp A) = false) ->
  build_data_from F P acc es = Ok d ->
  forall k A, In (k, A) d -> is_empty F (pd_fp A) = false.
Proof.
  revert acc. induction es as [|e rest IH]; simpl; intros acc Hacc H.
  - inversion H; subst; exact Hacc.
  - destruct (_prep F P e) as [od|err]; simpl in H; [|discriminate].
    eapply IH; [|exact H].
    destruct od as [d'|]; [|exact Hacc].
    destruct (is_empty F (pd_fp d')) eqn:Hem; simpl; [exact Hacc|].
    intros k A Hin. destruct (dict_set_in _ _ _ _ _ Hin) as [[_ ->] | Hold].
    + exact Hem.
    + exact (Hacc k A Hold).
Qed.

Lemma build_data_nonempty (P : shape_provider Elem Shape) es d :
  build_data F P es = Ok d -> forall k A, In (k, A) d -> is_empty F (pd_fp A) = false.
Proof. apply build_data_from_nonempty. intros k A []. Qed.

(** C3 (as amended): every emitted plan clash comes from a precomputed pair
    that passed the Z cull, whose footprint intersection is non-empty with raw
    area strictly greater than 0 (detect_plan_clashes takes no area
    tolerance); the reported area is that raw area rounded to 6 decimals. *)
Theorem detect_plan_clashes_emitted_area :
  forall (P : shape_provider Elem Shape) file_path a_type b_type z_tolerance return_wkt rs r,
    detect_plan_clashes F O P file_path a_type b_type z_tolerance return_wkt = Ok rs ->
    In r rs ->
    exists model a_data b_data A B,
      _open_ifc P file_path = Ok model /\
      build_data F P (by_type model a_type) = Ok a_data /\
      build_data F P (by_type model b_type) = Ok b_data /\
      In (aId r, A) a_data /\ In (bId r, B) b_data /\
      z_culled z_tolerance A B = false /\
      is_empty F (intersection O (pd_fp A) (pd_fp B)) = false /\
      0 < geom_area O (intersection O (pd_fp A) (pd_fp B)) /\
      area r = py_round (geom_area O (intersection O (pd_fp A) (pd_fp B))) 6.
Proof.
  intros P file_path a_type b_type z_tolerance return_wkt rs r H Hin.
  rewrite detect_plan_clashes_scan in H.
  destruct (_open_ifc P file_path) as [model|e] eqn:Hm; simpl in H; [|discriminate].
  destruct (build_data F P (by_type model a_type)) as [ad|e] eqn:Ha; simpl in H; [|discriminate].
  destruct (build_data F P (by_type model b_type)) as [bd|e] eqn:Hb; simpl in H; [|discriminate].
  inversion H; subst rs.
  apply in_plan_scan in Hin. destruct Hin as [[aid A] [[bid B] [HA [HB Hr]]]].
  destruct (in_pair_step _ _ _ _ _ _ _ Hr) as [Hz [Hai [Hbi [He [Hpos Har]]]]].
  exists model, ad, bd, A, B. rewrite Hai, Hbi. repeat split; assumption.
Qed.

(** C4: for every precomputed pair, the Z cull fires exactly when
    [a.zmax + tol < b.zmin] or [b.zmax + tol < a.zmin]; a culled pair is not
    intersected (its step is [] whatever the intersection) and no result
    with its pair of ids is emitted; an uncut pair goes to the 2D step. *)
Theorem detect_plan_clashes_z_cull :
  forall (P : shape_provider Elem Shape) file_path a_type b_type z_tolerance return_wkt
         model a_data b_data aid bid A B,
    _open_ifc P file_path = Ok model ->
    build_data F P (by_type model a_type) = Ok a_data ->
    build_data F P (by_type model b_type) = Ok b_data ->
    In (aid, A) a_data -> In (bid, B) b_data ->
    (z_culled z_tolerance A B = true <->
       pd_zmax A + z_tolerance < pd_zmin B \/ pd_zmax B + z_tolerance < pd_zmin A) /\
    (z_culled z_tolerance A B = true ->
       (forall O' : overlay_ops Region,
          pair_step F O' z_tolerance return_wkt (aid, A) (bid, B) = []) /\
       exists rs,
         detect_plan_clashes F O P file_path a_type b_type z_tolerance return_wkt = Ok rs /\
         forall r, In r rs -> ~ (aId r = aid /\ bId r = bid)) /\
    (z_culled z_tolerance A B = false ->
       pair_step F O z_tolerance return_wkt (aid, A) (bid, B) =
       emit_intersection F O return_wkt aid bid A B).
Proof.
  intros P file_path a_type b_type z_tolerance return_wkt model ad bd aid bid A B
         Hm Ha Hb HA HB.
  split; [|split].
  - unfold z_culled. rewrite orb_true_iff, !Qltb_true. tauto.
  - intros Hc. split.
    + intros O'. unfold pair_step. rewrite Hc. reflexivity.
    + exists (plan_scan F O z_tolerance return_wkt ad bd).
      split; [rewrite detect_plan_clashes_scan, Hm; simpl; rewrite Ha; simpl; rewrite Hb;
              reflexivity|].
      intros r Hr [Hai Hbi].
      apply in_plan_scan in Hr. destruct Hr as [[aid' A'] [[bid' B'] [HA' [HB' Hr]]]].
      destruct (in_pair_step _ _ _ _ _ _ _ Hr) as [Hz [Hai' [Hbi' _]]].
      rewrite <- Hai', Hai in HA'. rewrite <- Hbi', Hbi in HB'.
      rewrite (nodup_assoc_unique _ _ _ _ (build_data_nodup _ _ _ Ha) HA' HA) in Hz.
      rewrite (nodup_assoc_unique _ _ _ _ (build_data_nodup _ _ _ Hb) HB' HB) in Hz.
      congruence.
  - intros Hc. unfold pair_step. rewrite Hc. reflexivity.
Qed.

End PlanFacts.

Section PlanOrderFacts.

Variable Elem Shape Region : Type.
Variable F : footprint_ops Region.
Variable O : overlay_ops Region.

Lemma z_culled_mono t1 t2 (A B : plan_data Region) :
  t1 <= t2 -> z_culled t2 A B = true -> z_culled t1 A B = true.
Proof.
  unfold z_culled. rewrite !orb_true_iff, !Qltb_true. intros Ht [H | H].
  - left. exact (Qle_lt_trans _ _ _ (Qplus_le_compat _ _ _ _ (Qle_refl _) Ht) H).
  - right. exact (Qle_lt_trans _ _ _ (Qplus_le_compat _ _ _ _ (Qle_refl _) Ht) H).
Qed.

Lemma z_culled_sym t (A B : plan_data Region) : z_culled t A B = z_culled t B A.
Proof. unfold z_culled. apply orb_comm. Qed.

Lemma pair_step_mono t1 t2 return_wkt a b :
  t1 <= t2 ->
  sublist (pair_step F O t1 return_wkt a b) (pair_step F O t2 return_wkt a b).
Proof.
  destruct a as [aid A], b as [bid B]. unfold pair_step. intros Ht.
  destruct (z_culled t2 A B) eqn:E2.
  - rewrite (z_culled_mono _ _ _ _ Ht E2). constructor.
  - destruct (z_culled t1 A B); [apply sublist_nil_l | apply sublist_refl].
Qed.

Lemma plan_scan_mono t1 t2 return_wkt a_data b_data :
  t1 <= t2 ->
  sublist (plan_scan F O t1 return_wkt a_data b_data) (plan_scan F O t2 return_wkt a_data b_data).
Proof.
  intros Ht. unfold plan_scan. apply sublist_flat_map. intros a _.
  apply sublist_flat_map. intros b _. apply pair_step_mono. exact Ht.
Qed.

(** C7: larger tolerances report more: for [t1 <= t2] the clashes reported
    with [t1] are a sub-sequence of those reported with [t2] (so each of them
    is reported, and there are no more of them); both runs raise the same
    error otherwise. *)
Theorem detect_plan_clashes_monotone_tolerance :
  forall (P : shape_provider Elem Shape) file_path a_type b_type t1 t2 return_wkt,
    t1 <= t2 ->
    match detect_plan_clashes F O P file_path a_type b_type t1 return_wkt,
          detect_plan_clashes F O P file_path a_type b_type t2 return_wkt with
    | Ok r1, Ok r2 =>
        sublist r1 r2 /\ (forall r, In r r1 -> In r r2) /\
        (List.length r1 <= List.length r2)%nat
    | Err e1, Err e2 => e1 = e2
    | _, _ => False
    end.
Proof.
  intros P file_path a_type b_type t1 t2 return_wkt Ht.
  rewrite !detect_plan_clashes_scan.
  destruct (_open_ifc P file_path) as [model|e]; simpl; [|reflexivity].
  destruct (build_data F P (by_type model a_type)) as [ad|e]; simpl; [|reflexivity].
  destruct (build_data F P (by_type model b_type)) as [bd|e]; simpl; [|reflexivity].
  pose proof (plan_scan_mono t1 t2 return_wkt ad bd Ht) as Hs.
  split; [exact Hs | split].
  - intros r. apply sublist_in. exact Hs.
  - apply sublist_length. exact Hs.
Qed.

(** C10 (as amended): with one IFC type on both sides, the A and B sets are
    the same precomputed dict and every entry meets itself and every other
    entry in both orders.  For a non-negative tolerance each self pair passes
    the Z cull and goes to the 2D step (a row (x, x) exactly when the
    footprint's self-intersection is non-empty with positive area, with that
    area rounded to 6 decimals).  When Shapely's [p.intersection(p)] of a
    non-empty footprint is non-empty with the area of [p] (as for
    [p & p = p]), there is a row (x, x) exactly when x's footprint has
    positive area, and every row (x, x) reports that area rounded to 6
    decimals.  The cull treats (x, y) and (y, x) alike; and
    when Shapely's intersection does not depend on operand order, every row
    (x, y) has a mirror row (y, x) with the same area. *)
Theorem detect_plan_clashes_same_type :
  forall (P : shape_provider Elem Shape) file_path ifc_type z_tolerance return_wkt model data,
    _open_ifc P file_path = Ok model ->
    build_data F P (by_type model ifc_type) = Ok data ->
    detect_plan_clashes F O P file_path ifc_type ifc_type z_tolerance return_wkt =
      Ok (plan_scan F O z_tolerance return_wkt data data) /\
    (0 <= z_tolerance -> forall x A, In (x, A) data ->
       z_culled z_tolerance A A = false /\
       pair_step F O z_tolerance return_wkt (x, A) (x, A) =
       emit_intersection F O return_wkt x x A A) /\
    (0 <= z_tolerance ->
     (forall p, is_empty F p = false ->
        is_empty F (intersection O p p) = false /\
        geom_area O (intersection O p p) == geom_area O p) ->
     forall x A, In (x, A) data ->
       ((exists r, In r (plan_scan F O z_tolerance return_wkt data data) /\
                   aId r = x /\ bId r = x) <-> 0 < geom_area O (pd_fp A)) /\
       (forall r, In r (plan_scan F O z_tolerance return_wkt data data) ->
          aId r = x -> bId r = x -> area r = py_round (geom_area O (pd_fp A)) 6)) /\
    (forall A B : plan_data Region, z_culled z_tolerance A B = z_culled z_tolerance B A) /\
    ((forall p q, is_empty F (intersection O p q) = is_empty F (intersection O q p) /\
                  geom_area O (intersection O p q) == geom_area O (intersection O q p)) ->
     forall r, In r (plan_scan F O z_tolerance return_wkt data data) ->
       exists r', In r' (plan_scan F O z_tolerance return_wkt data data) /\
                  aId r' = bId r /\ bId r' = aId r /\ area r' = area r).
Proof.
  intros P file_path ifc_type z_tolerance return_wkt model data Hm Hd.
  assert (Hcull : 0 <= z_tolerance -> forall x A, In (x, A) data ->
                  z_culled z_tolerance A A = false).
  { intros Ht x A HA. unfold z_culled. rewrite orb_false_iff, !Qltb_false.
    pose proof (build_data_ordered Elem Shape Region F P _ _ Hd x A HA) as Ho.
    assert (H : pd_zmin A <= pd_zmax A + z_tolerance).
    { rewrite <- (Qplus_0_r (pd_zmin A)). apply Qplus_le_compat; assumption. }
    split; exact H. }
  (* a row (x, x) comes from the entry of x met with itself *)
  assert (Hself_row : forall x A r, In (x, A) data ->
            In r (plan_scan F O z_tolerance return_wkt data data) -> aId r = x -> bId r = x ->
            0 < geom_area O (intersection O (pd_fp A) (pd_fp A)) /\
            area r = py_round (geom_area O (intersection O (pd_fp A) (pd_fp A))) 6).
  { intros x A r HA Hr Hx1 Hx2.
    apply in_plan_scan in Hr. destruct Hr as [[x' A'] [[y' B'] [HA' [HB' Hr]]]].
    destruct (in_pair_step Region F O _ _ _ _ _ _ _ Hr) as [_ [Hai [Hbi [_ [Hpos Har]]]]].
    pose proof (build_data_nodup Elem Shape Region F P _ _ Hd) as Hnd.
    rewrite <- Hai, Hx1 in HA'. rewrite <- Hbi, Hx2 in HB'.
    rewrite (nodup_assoc_unique _ _ _ _ Hnd HA' HA) in Hpos, Har.
    rewrite (nodup_assoc_unique _ _ _ _ Hnd HB' HA) in Hpos, Har.
    split; assumption. }
  split; [|split; [|split; [|split]]].
  - rewrite detect_plan_clashes_scan, Hm. simpl. rewrite Hd. simpl. reflexivity.
  - intros Ht x A HA. pose proof (Hcull Ht x A HA) as Hc.
    split; [exact Hc|]. unfold pair_step. rewrite Hc. reflexivity.
  - intros Ht Hself x A HA.
    pose proof (Hcull Ht x A HA) as Hc.
    destruct (Hself _ (build_data_nonempty Elem Shape Region F P _ _ Hd x A HA)) as [Hse Hsa].
    split; [split|].
    + intros [r [Hr [Hx1 Hx2]]]. destruct (Hself_row x A r HA Hr Hx1 Hx2) as [Hpos _].
      rewrite <- Hsa. exact Hpos.
    + intros Hpos.
      destruct (pair_step F O z_tolerance return_wkt (x, A) (x, A)) as [|r0 rs] eqn:Hps.
      * exfalso. unfold pair_step in Hps. rewrite Hc in Hps. unfold emit_intersection in Hps.
        rewrite Hse in Hps. simpl in Hps.
        rewrite (Qltb_compat 0 0 _ _ (Qeq_refl 0) Hsa) in Hps.
        apply Qltb_true in Hpos. rewrite Hpos in Hps. discriminate Hps.
      * assert (Hr0 : In r0 (pair_step F O z_tolerance return_wkt (x, A) (x, A)))
          by (rewrite Hps; left; reflexivity).
        exists r0. split.
        -- apply in_plan_scan. exists (x, A), (x, A). split; [exact HA | split; [exact HA | exact Hr0]].
        -- destruct (in_pair_step Region F O _ _ _ _ _ _ _ Hr0) as [_ [Hai [Hbi _]]].
           split; assumption.
    + intros r Hr Hx1 Hx2. destruct (Hself_row x A r HA Hr Hx1 Hx2) as [_ Har].
      rewrite Har. apply py_round_compat. exact Hsa.
  - apply z_culled_sym.
  - intros Hsym r Hr.
    apply in_plan_scan in Hr. destruct Hr as [[x A] [[y B] [HA [HB Hr]]]].
    destruct (in_pair_step Region F O _ _ _ _ _ _ _ Hr) as [Hz [Hai [Hbi [He [Hpos Har]]]]].
    destruct (Hsym (pd_fp A) (pd_fp B)) as [Hse Hsa].
    exists {| aId := y; bId := x;
              area := py_round (geom_area O (intersection O (pd_fp B) (pd_fp A))) 6;
              wkt := if return_wkt
                     then Some (match to_wkt O (intersection O (pd_fp B) (pd_fp A)) with
                                | Ok s => Some s | Err _ => None end)
                     else None |}.
    split.
    + apply in_plan_scan. exists (y, B), (x, A). split; [exact HB | split; [exact HA|]].
      unfold pair_step. rewrite z_culled_sym, Hz. unfold emit_intersection.
      rewrite <- Hse, He. simpl.
      rewrite (Qltb_compat 0 0 _ _ (Qeq_refl 0) (Qeq_sym _ _ Hsa)).
      apply Qltb_true in Hpos. rewrite Hpos. simpl. left. reflexivity.
    + simpl. rewrite Hai, Hbi, Har. repeat split.
      apply py_round_compat. apply Qeq_sym. exact Hsa.
Qed.

End PlanOrderFacts.

(** ** The footprint projector (_project_triangle_xy, _footprint_polygon) *)

Section FootprintFacts.

Variable Region : Type.
Variable F : footprint_ops Region.


Lemma footprint_tris_in_range verts faces :
  indices_in_range verts faces ->
  footprint_tris F verts faces =
    Ok (filter (fun p => negb (is_empty F p) && is_valid F p)
               (map (fun '(i, j, k) =>
                       _project_triangle_xy F [nth i verts (0, 0, 0); nth j verts (0, 0, 0);
                                               nth k verts (0, 0, 0)]) faces)).
Proof.
  induction faces as [|[[i j] k] rest IH]; simpl; intros H; [reflexivity|].
  inversion H as [|? ? Hf Hr]; subst. destruct Hf as [Hi [Hj Hk]].
  unfold py_index.
  rewrite (nth_error_nth' verts (0, 0, 0) Hi), (nth_error_nth' verts (0, 0, 0) Hj),
          (nth_error_nth' verts (0, 0, 0) Hk).
  simpl. rewrite (IH Hr). simpl.
  destruct (negb (is_empty F _) && is_valid F _); reflexivity.
Qed.

(** C9 (as amended): for a mesh whose faces index existing vertices, each
    triangle is projected by dropping Z (the empty polygon when it has fewer
    than 3 distinct XY points); the polygons kept are those neither empty
    nor invalid, so a triangle whose 3 distinct XY points are collinear is
    also left out; they are unioned, buffered by +1e-4 then -1e-4, with the
    un-buffered union when buffering raises, and the empty polygon when no
    triangle is kept. *)
Theorem footprint_polygon_projection :
  forall (verts : list vec3) (faces : list face),
    indices_in_range verts faces ->
    (forall tri, _project_triangle_xy F tri =
       if (set_size (map drop_z tri) <? 3)%nat then polygon_empty F
       else polygon_of_ring F (map drop_z tri)) /\
    let tris := filter (fun p => negb (is_empty F p) && is_valid F p)
                  (map (fun '(i, j, k) =>
                          _project_triangle_xy F [nth i verts (0, 0, 0); nth j verts (0, 0, 0);
                                                  nth k verts (0, 0, 0)]) faces) in
    footprint_tris F verts faces = Ok tris /\
    _footprint_polygon F verts faces default_buffer_eps =
      Ok (match tris with
          | [] => polygon_empty F
          | _ :: _ =>
              let merged := unary_union F tris in
              match (m1 <- buffer F (1 # 10000) merged ;; buffer F (- (1 # 10000)) m1) with
              | Ok m => m
              | Err _ => merged
              end
          end).
Proof.
  intros verts faces H. split; [intros; reflexivity|].
  intros tris. pose proof (footprint_tris_in_range verts faces H) as Ht.
  split; [exact Ht|].
  unfold _footprint_polygon. rewrite Ht. fold tris. simpl.
  destruct tris as [|r tris']; [reflexivity|].
  unfold default_buffer_eps.
  destruct (m1 <- buffer F (1 # 10000) (unary_union F (r :: tris')) ;;
            buffer F (- (1 # 10000)) m1); reflexivity.
Qed.

End FootprintFacts.

(** ** Plan claims on explicit inputs *)

(** C3 counterexample: a wall and a slab whose footprints overlap on a
    1e-9 sliver (raw area 1e-9, above 0 but below the 1e-6 tolerance the
    claim speaks of): the scan emits the pair, with reported area 0. *)
Lemma detect_plan_clashes_sliver_reported :
  geom_area Demo.rect_overlay_ops
    (intersection Demo.rect_overlay_ops
       (pd_fp (snd (Demo.entry_of Demo.sliver_elems "IfcWall")))
       (pd_fp (snd (Demo.entry_of Demo.sliver_elems "IfcSlab")))) == 1 # 1000000000 /\
  detect_plan_clashes Demo.rect_footprint_ops Demo.rect_overlay_ops
    (Demo.demo_provider Demo.sliver_elems) "model.ifc" "IfcWall" "IfcSlab" (1 # 5) false =
  Ok [{| aId := "wall"; bId := "slab"; area := 0; wkt := None |}].
Proof. split; vm_compute; reflexivity. Qed.

Lemma detect_plan_clashes_emitted_area_witness :
  exists A B : plan_data Demo.rregion,
    z_culled (1 # 5) A B = false /\
    0 < geom_area Demo.rect_overlay_ops (intersection Demo.rect_overlay_ops (pd_fp A) (pd_fp B)).
Proof.
  destruct (detect_plan_clashes_emitted_area nat box Demo.rregion
              Demo.rect_footprint_ops Demo.rect_overlay_ops
              (Demo.demo_provider Demo.two_walls) "model.ifc" "IfcWall" "IfcWall" (1 # 5) false
              (plan_scan Demo.rect_footprint_ops Demo.rect_overlay_ops (1 # 5) false
                 (Demo.data_of Demo.two_walls "IfcWall") (Demo.data_of Demo.two_walls "IfcWall"))
              {| aId := "w1"; bId := "w2"; area := 1; wkt := None |}
              ltac:(vm_compute; reflexivity) ltac:(vm_compute; auto 20))
    as [model [ad [bd [A [B [_ [_ [_ [_ [_ [Hz [_ [Hpos _]]]]]]]]]]]]].
  exists A, B. split; assumption.
Defined.

Lemma detect_plan_clashes_z_cull_witness :
  exists rs,
    detect_plan_clashes Demo.rect_footprint_ops Demo.rect_overlay_ops
      (Demo.demo_provider Demo.stacked_elems) "model.ifc" "IfcWall" "IfcSlab" (1 # 5) false
      = Ok rs /\
    forall r, In r rs -> ~ (aId r = "lo"%string /\ bId r = "hi"%string).
Proof.
  apply (proj2 (proj1 (proj2
    (detect_plan_clashes_z_cull nat box Demo.rregion Demo.rect_footprint_ops Demo.rect_overlay_ops
       (Demo.demo_provider Demo.stacked_elems) "model.ifc" "IfcWall" "IfcSlab" (1 # 5) false
       (Demo.demo_model Demo.stacked_elems)
       (Demo.data_of Demo.stacked_elems "IfcWall") (Demo.data_of Demo.stacked_elems "IfcSlab")
       "lo" "hi"
       (snd (Demo.entry_of Demo.stacked_elems "IfcWall"))
       (snd (Demo.entry_of Demo.stacked_elems "IfcSlab"))
       eq_refl ltac:(vm_compute; reflexivity) ltac:(vm_compute; reflexivity)
       ltac:(vm_compute; auto) ltac:(vm_compute; auto)))
    ltac:(vm_compute; reflexivity))).
Defined.

Lemma detect_plan_clashes_monotone_tolerance_witness :
  match detect_plan_clashes Demo.rect_footprint_ops Demo.rect_overlay_ops
          (Demo.demo_provider Demo.stacked_elems) "model.ifc" "IfcWall" "IfcSlab" (1 # 5) false,
        detect_plan_clashes Demo.rect_footprint_ops Demo.rect_overlay_ops
          (Demo.demo_provider Demo.stacked_elems) "model.ifc" "IfcWall" "IfcSlab" 10 false with
  | Ok r1, Ok r2 =>
      sublist r1 r2 /\ (forall r, In r r1 -> In r r2) /\ (List.length r1 <= List.length r2)%nat
  | Err e1, Err e2 => e1 = e2
  | _, _ => False
  end.
Proof.
  apply (detect_plan_clashes_monotone_tolerance nat box Demo.rregion
           Demo.rect_footprint_ops Demo.rect_overlay_ops
           (Demo.demo_provider Demo.stacked_elems) "model.ifc" "IfcWall" "IfcSlab" (1 # 5) 10 false).
  vm_compute. discriminate.
Defined.

(** C9 counterexample: for a mesh with a proper triangle and a triangle of
    three distinct collinear XY points, the claim keeps both triangles for the
    union, the code keeps only the proper one (the collinear ring is an
    invalid polygon). *)
Lemma footprint_drops_collinear_triangle :
  match footprint_tris Demo.rect_footprint_ops Demo.collinear_verts Demo.collinear_faces,
        spec_footprint_tris Demo.rect_footprint_ops Demo.collinear_verts Demo.collinear_faces with
  | Ok code_tris, Ok claimed_tris =>
      List.length code_tris = 1%nat /\ List.length claimed_tris = 2%nat
  | _, _ => False
  end.
Proof. vm_compute. split; reflexivity. Qed.

Lemma footprint_polygon_projection_witness :
  footprint_tris Demo.rect_footprint_ops Demo.collinear_verts Demo.collinear_faces =
  Ok (filter (fun p => negb (is_empty Demo.rect_footprint_ops p) && is_valid Demo.rect_footprint_ops p)
        (map (fun '(i, j, k) =>
                _project_triangle_xy Demo.rect_footprint_ops
                  [nth i Demo.collinear_verts (0, 0, 0); nth j Demo.collinear_verts (0, 0, 0);
                   nth k Demo.collinear_verts (0, 0, 0)]) Demo.collinear_faces)).
Proof.
  apply (proj1 (proj2 (footprint_polygon_projection Demo.rregion Demo.rect_footprint_ops
                         Demo.collinear_verts Demo.collinear_faces
                         ltac:(repeat constructor)))).
Defined.

(** C10 counterexample: two walls with non-empty footprints, same type on
    both sides, tolerance -2: no result at all, in particular no (x, x). *)
Lemma detect_plan_clashes_negative_tolerance :
  List.length (Demo.data_of Demo.two_walls "IfcWall") = 2%nat /\
  detect_plan_clashes Demo.rect_footprint_ops Demo.rect_overlay_ops
    (Demo.demo_provider Demo.two_walls) "model.ifc" "IfcWall" "IfcWall" (-2) false = Ok [].
Proof. split; vm_compute; reflexivity. Qed.

Lemma detect_plan_clashes_same_type_witness :
  detect_plan_clashes Demo.rect_footprint_ops Demo.rect_overlay_ops
    (Demo.demo_provider Demo.two_walls) "model.ifc" "IfcWall" "IfcWall" (1 # 5) false =
  Ok (plan_scan Demo.rect_footprint_ops Demo.rect_overlay_ops (1 # 5) false
        (Demo.data_of Demo.two_walls "IfcWall") (Demo.data_of Demo.two_walls "IfcWall")).
Proof.
  apply (proj1 (detect_plan_clashes_same_type nat box Demo.rregion
                  Demo.rect_footprint_ops Demo.rect_overlay_ops
                  (Demo.demo_provider Demo.two_walls) "model.ifc" "IfcWall" (1 # 5) false
                  (Demo.demo_model Demo.two_walls) (Demo.data_of Demo.two_walls "IfcWall")
                  eq_refl ltac:(vm_compute; reflexivity))).
Defined.

(* ======================================================================== *)
(** * Further properties of the services *)

(** ** Rounding *)

Lemma pow10_nonzero dp : ~ inject_Z (Zpos (pow10 dp)) == 0.
Proof. unfold Qeq. simpl. lia. Qed.







(** ** Exact volume and surface area (compute_element_volume, compute_element_surface_area) *)




(** ** Element lookup (_get_element) *)

Lemma find_all_false {A} (f : A -> bool) (l : list A) :
  (forall x, In x l -> f x = false) -> find f l = None.
Proof.
  induction l as [|x rest IH]; simpl; intros H; [reflexivity|].
  rewrite (H x (or_introl eq_refl)). apply IH. intros y Hy. apply H. right. exact Hy.
Qed.

Lemma opt_string_eqb_true a b : opt_string_eqb a b = true <-> a = Some b.
Proof.
  destruct a as [a|]; simpl; [rewrite string_eqb_true; split; congruence | split; discriminate].
Qed.

(** A reference that, once stripped, is neither "#<digits>" nor "<digits>" is
    looked up by GlobalId and never raises: by_guid's element when it finds
    one, otherwise the first entity with that GlobalId, otherwise [None]; in
    the last case [_topods_for_element] raises [ValueError("Element ...
    not found")]. *)
Theorem _get_element_by_guid {Elem Shape} (P : shape_provider Elem Shape) file_path model s :
  _open_ifc P file_path = Ok model ->
  hash_digits (py_strip s) = None -> py_isdigit (py_strip s) = false ->
  let g := string_of_list_ascii (py_strip s) in
  (forall e, _get_element (global_id P) model (RefStr s) <> Err e) /\
  (forall el, by_guid model g = Ok el -> _get_element (global_id P) model (RefStr s) = Ok (Some el)) /\
  (forall e, by_guid model g = Err e ->
     _get_element (global_id P) model (RefStr s) =
       Ok (find (fun ent => opt_string_eqb (global_id P ent) g) (entities model))) /\
  ((exists e, by_guid model g = Err e) ->
   (forall ent, In ent (entities model) -> global_id P ent <> Some g) ->
   _topods_for_element P file_path (RefStr s) = Err (ElementNotFound (RefStr s))).
Proof.
  intros Hm Hh Hd g.
  assert (Hget : _get_element (global_id P) model (RefStr s) =
                 match by_guid model g with
                 | Ok e => Ok (Some e)
                 | Err _ => Ok (find (fun ent => opt_string_eqb (global_id P ent) g) (entities model))
                 end).
  { simpl. rewrite Hh, Hd. reflexivity. }
  split; [|split; [|split]].
  - intros e. rewrite Hget. destruct (by_guid model g); discriminate.
  - intros el He. rewrite Hget, He. reflexivity.
  - intros e He. rewrite Hget, He. reflexivity.
  - intros [e He] Hnone. unfold _topods_for_element. rewrite Hm. unfold bind at 1.
    rewrite Hget, He. simpl.
    rewrite find_all_false; [reflexivity|].
    intros ent Hin. destruct (opt_string_eqb (global_id P ent) g) eqn:E; [|reflexivity].
    apply opt_string_eqb_true in E. exfalso. exact (Hnone ent Hin E).
Qed.

Lemma _get_element_by_guid_witness :
  _topods_for_element Demo.sweep_provider "model.ifc" (RefStr " nope ") =
    Err (ElementNotFound (RefStr " nope ")).
Proof.
  apply (_get_element_by_guid Demo.sweep_provider "model.ifc" (Demo.demo_model Demo.sweep_elems)
           " nope " eq_refl eq_refl eq_refl).
  - exists (LibraryError "Instance not found"). reflexivity.
  - intros ent Hin. simpl in Hin.
    repeat (destruct Hin as [<- | Hin]; [discriminate|]). destruct Hin.
Defined.


(** ** Roles (require_role, role_is) *)




(** The role gate comes first: a caller whose role is not engineer or
    architect (case-insensitively; no role is "anonymous") gets
    [GraphQLError("Forbidden")] from every gated resolver, whatever the file
    and the elements. *)
Theorem gated_resolvers_forbidden (role : option string) :
  role_is role ["engineer"; "architect"]%string = false ->
  forall Elem Shape (P : shape_provider Elem Shape) (K : occ_kernel Shape)
         (surface_mass : Shape -> Q) (is_a : Elem -> string) V
         (export : string -> element_ref -> result (list (string * V))) filePath a b,
    resolve_detect_clashes P K role filePath = Err (GraphQLError "Forbidden") /\
    resolve_pairwise_clash P K role filePath a b = Err (GraphQLError "Forbidden") /\
    resolve_pair_clash_with_geometry P K export role filePath a b = Err (GraphQLError "Forbidden") /\
    resolve_element_volume P K role filePath a = Err (GraphQLError "Forbidden") /\
    resolve_element_surface_area P surface_mass role filePath a = Err (GraphQLError "Forbidden") /\
    resolve_element_material_usage P K is_a role filePath a = Err (GraphQLError "Forbidden") /\
    resolve_element_embodied_carbon P K is_a role filePath a = Err (GraphQLError "Forbidden").
Proof.
  intros H Elem Shape P K surface_mass is_a V export filePath a b.
  assert (Hr : require_role role ["engineer"; "architect"]%string = Err (GraphQLError "Forbidden")).
  { unfold require_role. unfold role_is in H. rewrite H. reflexivity. }
  unfold resolve_detect_clashes, resolve_pairwise_clash, resolve_pair_clash_with_geometry,
         resolve_element_volume, resolve_element_surface_area,
         resolve_element_material_usage, resolve_element_embodied_carbon.
  rewrite Hr. repeat split; reflexivity.
Qed.

Lemma gated_resolvers_forbidden_witness :
  resolve_detect_clashes Demo.sweep_provider Demo.box_kernel (Some "Client"%string) "model.ifc"
    = Err (GraphQLError "Forbidden").
Proof.
  exact (proj1 (gated_resolvers_forbidden (Some "Client"%string) eq_refl nat box
                  Demo.sweep_provider Demo.box_kernel (fun _ => 0) (fun _ => ""%string) string
                  (fun _ _ => Ok []) "model.ifc" "a" "b")).
Defined.

(** ** The single-pair resolvers (resolve_pairwise_clash, resolve_pair_clash_with_geometry) *)

(** The two single-pair resolvers agree: whenever pairClashWithGeometry
    answers, pairwiseClash answers with the same volume (zero volumes
    included), and when pairwiseClash fails, pairClashWithGeometry fails too,
    whatever the geometry export does. *)
Theorem pair_resolvers_agree {Elem Shape V} (P : shape_provider Elem Shape) (K : occ_kernel Shape)
    (export : string -> element_ref -> result (list (string * V))) role filePath a b :
  (forall r, resolve_pair_clash_with_geometry P K export role filePath a b = Ok r ->
     resolve_pairwise_clash P K role filePath a b =
       Ok {| element1 := a; element2 := b; intersectionVolume := pc_intersectionVolume r |}) /\
  (forall e, resolve_pairwise_clash P K role filePath a b = Err e ->
     exists e', resolve_pair_clash_with_geometry P K export role filePath a b = Err e').
Proof.
  unfold resolve_pair_clash_with_geometry, resolve_pairwise_clash.
  destruct (require_role role ["engineer"; "architect"]%string) as [[]|e0]; simpl;
    [|split; [discriminate | eauto]].
  destruct (negb (isfile P filePath)); [split; [discriminate | eauto]|].
  destruct (clash_between P K filePath (RefStr a) (RefStr b)) as [vol|e1]; simpl;
    [|split; [discriminate | eauto]].
  split; [|discriminate].
  destruct (export filePath (RefStr a)) as [ga|?]; simpl; [|discriminate].
  destruct (export filePath (RefStr b)) as [gb|?]; simpl; [|discriminate].
  intros r Hr. inversion Hr. reflexivity.
Qed.

(** ** The pairs of the 3D sweep (collect_guids, combinations2) *)

Lemma combinations2_in {A} (xs : list A) a b :
  In (a, b) (combinations2 xs) -> In a xs /\ In b xs.
Proof.
  induction xs as [|x rest IH]; simpl; [tauto|].
  rewrite in_app_iff, in_map_iff. intros [[y [Hy Hin]] | H].
  - inversion Hy; subst. auto.
  - destruct (IH H). auto.
Qed.

Lemma combinations2_irrefl {A} (xs : list A) a b :
  NoDup xs -> In (a, b) (combinations2 xs) -> a <> b.
Proof.
  induction xs as [|x rest IH]; simpl; [tauto|].
  intros Hnd. inversion Hnd as [|? ? Hx Hrest]; subst.
  rewrite in_app_iff, in_map_iff. intros [[y [Hy Hin]] | H].
  - inversion Hy; subst. intros ->. contradiction.
  - apply IH; assumption.
Qed.

Lemma combinations2_asym {A} (xs : list A) a b :
  NoDup xs -> In (a, b) (combinations2 xs) -> ~ In (b, a) (combinations2 xs).
Proof.
  induction xs as [|x rest IH]; simpl; [tauto|].
  intros Hnd. inversion Hnd as [|? ? Hx Hrest]; subst.
  rewrite !in_app_iff, !in_map_iff. intros [[y [Hy Hin]] | H] [[z [Hz Hin']] | H'].
  - inversion Hy; inversion Hz; subst. contradiction.
  - inversion Hy; subst. apply Hx. exact (proj2 (combinations2_in _ _ _ H')).
  - inversion Hz; subst. apply Hx. exact (proj2 (combinations2_in _ _ _ H)).
  - exact (IH Hrest H H').
Qed.

Lemma combinations2_nodup {A} (xs : list A) : NoDup xs -> NoDup (combinations2 xs).
Proof.
  induction xs as [|x rest IH]; simpl; intros Hnd; [constructor|].
  inversion Hnd as [|? ? Hx Hrest]; subst.
  apply NoDup_app.
  - apply NoDup_map_NoDup_ForallPairs; [intros u v _ _ Huv; inversion Huv; reflexivity | exact Hrest].
  - apply IH. exact Hrest.
  - intros [u v] Hin Hin'. apply in_map_iff in Hin. destruct Hin as [y [Hy _]].
    inversion Hy; subst. apply Hx. exact (proj1 (combinations2_in _ _ _ Hin')).
Qed.

Lemma combinations2_total {A} (xs : list A) a b :
  In a xs -> In b xs -> a <> b -> In (a, b) (combinations2 xs) \/ In (b, a) (combinations2 xs).
Proof.
  induction xs as [|x rest IH]; simpl; [tauto|].
  rewrite !in_app_iff, !in_map_iff.
  intros [-> | Ha] [-> | Hb] Hne.
  - contradiction.
  - left. left. exists b. auto.
  - right. left. exists a. auto.
  - destruct (IH Ha Hb Hne); auto.
Qed.

Lemma collect_guids_inv {Elem Shape} (P : shape_provider Elem Shape) (es : list Elem) acc :
  NoDup acc -> ~ In EmptyString acc ->
  let r := fold_left (fun guids e => collect_guid guids e (global_id P e)) es acc in
  NoDup r /\ ~ In EmptyString r /\
  (forall g, In g r <-> In g acc \/ exists e, In e es /\ global_id P e = Some g /\ g <> EmptyString).
Proof.
  revert acc. induction es as [|e rest IH]; simpl; intros acc Hnd Hne.
  - split; [exact Hnd | split; [exact Hne|]]. intros g. split; [auto|].
    intros [H | [e [[] _]]]. exact H.
  - destruct (IH (collect_guid acc e (global_id P e))) as [H1 [H2 H3]].
    + unfold collect_guid. destruct (global_id P e) as [[|c s]|]; try exact Hnd.
      destruct (existsb (string_eqb (String c s)) acc) eqn:E; [exact Hnd|].
      apply NoDup_app; [exact Hnd | repeat constructor; simpl; tauto|].
      intros g Hin [<- | []]. assert (existsb (string_eqb (String c s)) acc = true); [|congruence].
      apply existsb_exists. exists (String c s). split; [exact Hin | apply string_eqb_true; reflexivity].
    + unfold collect_guid. destruct (global_id P e) as [[|c s]|]; try exact Hne.
      destruct (existsb (string_eqb (String c s)) acc); [exact Hne|].
      rewrite in_app_iff. simpl. intros [H | [H | []]]; [exact (Hne H) | discriminate].
    + split; [exact H1 | split; [exact H2|]]. intros g. rewrite H3.
      unfold collect_guid. split.
      * destruct (global_id P e) as [[|c s]|] eqn:Eg.
        -- intros [H | H]; [auto|]. destruct H as [e' [He' Hg]]. right. exists e'. auto.
        -- destruct (existsb (string_eqb (String c s)) acc) eqn:E.
           ++ intros [H | H]; [auto|]. destruct H as [e' [He' Hg]]. right. exists e'. auto.
           ++ rewrite in_app_iff. simpl. intros [[H | [<- | []]] | H]; [auto | |].
              ** right. exists e. split; [auto | split; [exact Eg | discriminate]].
              ** destruct H as [e' [He' Hg]]. right. exists e'. auto.
        -- intros [H | H]; [auto|]. destruct H as [e' [He' Hg]]. right. exists e'. auto.
      * intros [H | [e' [[<- | He'] [Hg Hgne]]]].
        -- left. destruct (global_id P e) as [[|c s]|]; try exact H.
           destruct (existsb (string_eqb (String c s)) acc); [exact H|].
           apply in_app_iff. auto.
        -- left. rewrite Hg. destruct g as [|c s]; [contradiction|].
           destruct (existsb (string_eqb (String c s)) acc) eqn:E; [|apply in_app_iff; simpl; auto].
           apply existsb_exists in E. destruct E as [g' [Hg' Eq]].
           apply string_eqb_true in Eq. subst. exact Hg'.
        -- right. exists e'. auto.
Qed.

(** The 3D sweep compares each unordered pair of distinct GlobalIds of the
    elements of the six clash types exactly once: the enumerated pairs have no
    repetition, no pair (g, g), never both (g, h) and (h, g), and every two
    distinct such GlobalIds appear in one order. *)
Theorem sweep_pairs_enumeration {Elem Shape} (P : shape_provider Elem Shape) (model : ifc_model Elem) :
  let pairs := combinations2 (collect_guids P model) in
  NoDup pairs /\
  (forall g h, In (g, h) pairs -> g <> h /\ ~ In (h, g) pairs) /\
  (forall g, In g (collect_guids P model) <->
     g <> EmptyString /\
     exists t e, In t clash_types /\ In e (by_type model t) /\ global_id P e = Some g) /\
  (forall g h, In g (collect_guids P model) -> In h (collect_guids P model) -> g <> h ->
     In (g, h) pairs \/ In (h, g) pairs).
Proof.
  intros pairs.
  destruct (collect_guids_inv P (flat_map (by_type model) clash_types) [] (NoDup_nil _)
              (fun H => H)) as [H1 [H2 H3]].
  fold (collect_guids P model) in H1, H2, H3.
  split; [apply combinations2_nodup; exact H1|].
  split; [intros g h Hin; split;
          [exact (combinations2_irrefl _ _ _ H1 Hin) | exact (combinations2_asym _ _ _ H1 Hin)]|].
  split; [|intros g h Hg Hh Hne; apply combinations2_total; assumption].
  intros g. rewrite H3. split.
  - intros [[] | [e [He [Hg Hne]]]]. split; [exact Hne|].
    apply in_flat_map in He. destruct He as [t [Ht He]]. exists t, e. auto.
  - intros [Hne [t [e [Ht [He Hg]]]]]. right. exists e. split; [|auto].
    apply in_flat_map. exists t. auto.
Qed.

(** ** A successful 3D sweep (resolve_detect_clashes) *)

Lemma sweep_pairs_ok {Elem Shape} (P : shape_provider Elem Shape) (K : occ_kernel Shape)
    file_path pairs rows :
  sweep_pairs P K file_path pairs = Ok rows ->
  (forall a b, In (a, b) pairs -> exists v, clash_between P K file_path (RefStr a) (RefStr b) = Ok v) /\
  (forall r, In r rows <->
     In (element1 r, element2 r) pairs /\
     clash_between P K file_path (RefStr (element1 r)) (RefStr (element2 r)) = Ok (intersectionVolume r) /\
     0 < intersectionVolume r) /\
  (NoDup pairs -> NoDup (map (fun r => (element1 r, element2 r)) rows)).
Proof.
  revert rows. induction pairs as [|[a b] rest IH]; simpl; intros rows H.
  - inversion H; subst. split; [tauto | split; [simpl; tauto | constructor]].
  - destruct (clash_between P K file_path (RefStr a) (RefStr b)) as [vol|e] eqn:Ec; [|discriminate].
    simpl in H.
    destruct (sweep_pairs P K file_path rest) as [rows'|e] eqn:Er; [|discriminate].
    simpl in H. injection H as <-.
    destruct (IH rows' eq_refl) as [H1 [H2 H3]].
    split; [|split].
    + intros a' b' [Heq | Hin]; [injection Heq as <- <-; eauto | exact (H1 a' b' Hin)].
    + intros r. destruct (Qltb 0 vol) eqn:Eq.
      * apply Qltb_true in Eq. simpl. rewrite H2. split.
        -- intros [<- | Hr]; simpl; [auto | tauto].
        -- intros [[Heq | Hin] [Hc Hpos]]; [|auto].
           left. destruct r as [e1 e2 iv]. simpl in *. injection Heq as -> ->.
           rewrite Ec in Hc. injection Hc as ->. reflexivity.
      * apply Qltb_false in Eq. rewrite H2. split; [tauto|].
        intros [[Heq | Hin] [Hc Hpos]]; [|auto].
        destruct r as [e1 e2 iv]. simpl in *. injection Heq as -> ->.
        rewrite Ec in Hc. injection Hc as ->. exfalso. apply (Qlt_not_le _ _ Hpos Eq).
    + intros Hnd. inversion Hnd as [|? ? Hx Hrest]; subst.
      destruct (Qltb 0 vol); simpl; [|exact (H3 Hrest)].
      constructor; [|exact (H3 Hrest)].
      intros Hin. apply in_map_iff in Hin. destruct Hin as [r [Hk Hr]].
      apply Hx. rewrite <- Hk. exact (proj1 (proj1 (H2 r) Hr)).
Qed.

(** When the 3D sweep succeeds, the file opened, every enumerated pair was
    resolved, and the rows are exactly the enumerated pairs whose clash volume
    is positive, each with that volume and each pair at most once. *)
Theorem resolve_detect_clashes_rows {Elem Shape} (P : shape_provider Elem Shape) (K : occ_kernel Shape)
    role filePath rows :
  resolve_detect_clashes P K role filePath = Ok rows ->
  exists m, ifc_open P filePath = Ok m /\
    let pairs := combinations2 (collect_guids P m) in
    (forall a b, In (a, b) pairs -> exists v, clash_between P K filePath (RefStr a) (RefStr b) = Ok v) /\
    (forall r, In r rows <->
       In (element1 r, element2 r) pairs /\
       clash_between P K filePath (RefStr (element1 r)) (RefStr (element2 r)) = Ok (intersectionVolume r) /\
       0 < intersectionVolume r) /\
    NoDup (map (fun r => (element1 r, element2 r)) rows).
Proof.
  unfold resolve_detect_clashes.
  destruct (require_role role ["engineer"; "architect"]%string) as [[]|e0]; simpl; [|discriminate].
  destruct (negb (isfile P filePath)); [discriminate|].
  destruct (ifc_open P filePath) as [m|e]; simpl; [|discriminate].
  destruct (sweep_pairs P K filePath (combinations2 (collect_guids P m))) as [rows'|e] eqn:Es;
    [|discriminate].
  intros H. injection H as <-. exists m. split; [reflexivity|].
  destruct (sweep_pairs_ok P K filePath _ _ Es) as [H1 [H2 H3]].
  split; [exact H1 | split; [exact H2|]].
  apply H3. apply combinations2_nodup.
  destruct (collect_guids_inv P (flat_map (by_type m) clash_types) [] (NoDup_nil _) (fun H => H))
    as [Hnd _]. exact Hnd.
Qed.

Lemma resolve_detect_clashes_rows_witness :
  let P := Demo.demo_provider (firstn 2 Demo.sweep_elems) in
  exists rows, resolve_detect_clashes P Demo.box_kernel (Some "engineer"%string) "model.ifc" = Ok rows /\
  exists m, ifc_open P "model.ifc" = Ok m /\
    let pairs := combinations2 (collect_guids P m) in
    (forall a b, In (a, b) pairs -> exists v, clash_between P Demo.box_kernel "model.ifc" (RefStr a) (RefStr b) = Ok v) /\
    (forall r, In r rows <->
       In (element1 r, element2 r) pairs /\
       clash_between P Demo.box_kernel "model.ifc" (RefStr (element1 r)) (RefStr (element2 r))
         = Ok (intersectionVolume r) /\
       0 < intersectionVolume r) /\
    NoDup (map (fun r => (element1 r, element2 r)) rows).
Proof.
  intros P. eexists. split; [vm_compute; reflexivity|].
  apply (resolve_detect_clashes_rows P Demo.box_kernel (Some "engineer"%string) "model.ifc").
  vm_compute. reflexivity.
Defined.

(** ** The precomputed plan dicts (detect_plan_clashes._prep and its loops) *)

Lemma dict_set_in_nodup {A} k v (d : list (string * A)) k' v' :
  NoDup (map fst d) -> In (k', v') (dict_set k v d) ->
  (k' = k /\ v' = v) \/ (k' <> k /\ In (k', v') d).
Proof.
  induction d as [|[k0 v0] rest IH]; simpl; intros Hnd.
  - intros [H | []]. inversion H; subst. auto.
  - inversion Hnd as [|? ? Hnin Hnd']; subst.
    destruct (string_eqb k k0) eqn:E; simpl.
    + apply string_eqb_true in E. subst k0.
      intros [H | H]; [inversion H; subst; auto|].
      right. split; [|auto]. intros ->. apply Hnin. exact (in_map fst _ _ H).
    + intros [H | H].
      * inversion H; subst. right. split; [|auto]. intros ->.
        rewrite (proj2 (string_eqb_true k k) eq_refl) in E. discriminate.
      * destruct (IH Hnd' H) as [? | [? ?]]; auto.
Qed.

Lemma _prep_id {Elem Shape Region} (F : footprint_ops Region) (P : shape_provider Elem Shape) e A :
  _prep F P e = Ok (Some A) -> global_id P e = Some (pd_id A) /\ pd_id A <> EmptyString.
Proof.
  unfold _prep.
  destruct (global_id P e) as [[|c s]|]; try discriminate.
  destruct (_mesh_world P e) as [[V Fs]|err]; simpl; [|discriminate].
  destruct V as [|v V]; [discriminate|]. destruct Fs as [|f Fs]; [discriminate|].
  destruct (_z_range (v :: V)) as [zmin zmax].
  destruct (_footprint_polygon F (v :: V) (f :: Fs) default_buffer_eps); simpl; [|discriminate].
  intros H. inversion H; subst. simpl. split; [reflexivity | discriminate].
Qed.

Lemma build_data_from_last {Elem Shape Region} (F : footprint_ops Region) (P : shape_provider Elem Shape)
    acc es d :
  NoDup (map fst acc) -> build_data_from F P acc es = Ok d ->
  forall k A, In (k, A) d ->
    let later_free l := forall e' A', In e' l -> _prep F P e' = Ok (Some A') ->
                          is_empty F (pd_fp A') = false -> pd_id A' <> k in
    (In (k, A) acc /\ later_free es) \/
    exists es1 e es2, es = es1 ++ e :: es2 /\ _prep F P e = Ok (Some A) /\
      is_empty F (pd_fp A) = false /\ pd_id A = k /\ later_free es2.
Proof.
  revert acc. induction es as [|e rest IH]; simpl; intros acc Hnd H k A Hin.
  - inversion H; subst. left. split; [exact Hin | intros ? ? []].
  - destruct (_prep F P e) as [od|err] eqn:Hp; simpl in H; [|discriminate].
    set (acc' := match od with
                 | Some d0 => if negb (is_empty F (pd_fp d0)) then dict_set (pd_id d0) d0 acc else acc
                 | None => acc
                 end) in H.
    assert (Hnd' : NoDup (map fst acc')).
    { unfold acc'. destruct od as [d0|]; [|exact Hnd].
      destruct (negb (is_empty F (pd_fp d0))); [apply dict_set_nodup|]; exact Hnd. }
    destruct (IH acc' Hnd' H k A Hin) as [[Hacc Hfree] | [es1 [e0 [es2 [Heq Hrest]]]]].
    + unfold acc' in Hacc. destruct od as [d0|].
      * destruct (is_empty F (pd_fp d0)) eqn:Hem; simpl in Hacc.
        -- left. split; [exact Hacc|]. intros e' A' [<- | He'] Hp' Hne.
           ++ rewrite Hp in Hp'. injection Hp' as <-. congruence.
           ++ exact (Hfree e' A' He' Hp' Hne).
        -- destruct (dict_set_in_nodup _ _ _ _ _ Hnd Hacc) as [[-> ->] | [Hne Hold]].
           ++ right. exists [], e, rest. simpl. auto.
           ++ left. split; [exact Hold|]. intros e' A' [<- | He'] Hp' Hne'.
              ** rewrite Hp in Hp'. injection Hp' as <-. auto.
              ** exact (Hfree e' A' He' Hp' Hne').
      * left. split; [exact Hacc|]. intros e' A' [<- | He'] Hp' Hne.
        -- congruence.
        -- exact (Hfree e' A' He' Hp' Hne).
    + right. exists (e :: es1), e0, es2. rewrite Heq. simpl. auto.
Qed.

Lemma build_data_from_complete {Elem Shape Region} (F : footprint_ops Region)
    (P : shape_provider Elem Shape) acc es d :
  build_data_from F P acc es = Ok d ->
  (forall x, In x (map fst acc) -> In x (map fst d)) /\
  (forall e A, In e es -> _prep F P e = Ok (Some A) -> is_empty F (pd_fp A) = false ->
     In (pd_id A) (map fst d)).
Proof.
  revert acc. induction es as [|e rest IH]; simpl; intros acc H.
  - inversion H; subst. split; [auto | tauto].
  - destruct (_prep F P e) as [od|err] eqn:Hp; simpl in H; [|discriminate].
    destruct (IH _ H) as [H1 H2]. split.
    + intros x Hx. apply H1. destruct od as [d0|]; [|exact Hx].
      destruct (negb (is_empty F (pd_fp d0))); [|exact Hx].
      apply dict_set_keys. auto.
    + intros e' A' [<- | He'] Hp' Hne; [|exact (H2 e' A' He' Hp' Hne)].
      rewrite Hp in Hp'. injection Hp' as ->. apply H1.
      rewrite Hne. simpl. apply dict_set_keys. auto.
Qed.

(** The dict of one side of the plan scan has one entry per GlobalId; each
    entry is keyed by its own "id", has a non-empty footprint and zmin <= zmax,
    and is the precomputation of the last element of the list with that
    GlobalId and a non-empty footprint; no element with a non-empty footprint
    is left out. *)
Theorem build_data_entries {Elem Shape Region} (F : footprint_ops Region)
    (P : shape_provider Elem Shape) es d :
  build_data F P es = Ok d ->
  NoDup (map fst d) /\
  (forall k A, In (k, A) d ->
     pd_id A = k /\ is_empty F (pd_fp A) = false /\ pd_zmin A <= pd_zmax A /\
     exists es1 e es2, es = es1 ++ e :: es2 /\ global_id P e = Some k /\ _prep F P e = Ok (Some A) /\
       forall e' A', In e' es2 -> _prep F P e' = Ok (Some A') ->
         is_empty F (pd_fp A') = false -> pd_id A' <> k) /\
  (forall e A, In e es -> _prep F P e = Ok (Some A) -> is_empty F (pd_fp A) = false ->
     In (pd_id A) (map fst d)).
Proof.
  intros H. split; [exact (build_data_nodup Elem Shape Region F P es d H)|].
  split; [|exact (proj2 (build_data_from_complete F P [] es d H))].
  intros k A Hin.
  destruct (build_data_from_last F P [] es d (NoDup_nil _) H k A Hin)
    as [[[] _] | [es1 [e [es2 [Heq [Hp [Hne [Hid Hfree]]]]]]]].
  split; [exact Hid | split; [exact Hne|]].
  split; [exact (_prep_ordered Elem Shape Region F P e A Hp)|].
  exists es1, e, es2. split; [exact Heq|]. split; [|auto].
  rewrite <- Hid. exact (proj1 (_prep_id F P e A Hp)).
Qed.

Lemma build_data_entries_witness :
  let P := Demo.demo_provider Demo.two_walls in
  let es := by_type (Demo.demo_model Demo.two_walls) "IfcWall" in
  exists d, build_data Demo.rect_footprint_ops P es = Ok d /\
  NoDup (map fst d) /\
  (forall k A, In (k, A) d ->
     pd_id A = k /\ is_empty Demo.rect_footprint_ops (pd_fp A) = false /\ pd_zmin A <= pd_zmax A /\
     exists es1 e es2, es = es1 ++ e :: es2 /\ global_id P e = Some k /\
       _prep Demo.rect_footprint_ops P e = Ok (Some A) /\
       forall e' A', In e' es2 -> _prep Demo.rect_footprint_ops P e' = Ok (Some A') ->
         is_empty Demo.rect_footprint_ops (pd_fp A') = false -> pd_id A' <> k) /\
  (forall e A, In e es -> _prep Demo.rect_footprint_ops P e = Ok (Some A) ->
     is_empty Demo.rect_footprint_ops (pd_fp A) = false -> In (pd_id A) (map fst d)).
Proof.
  intros P es. eexists. split; [vm_compute; reflexivity|].
  apply (build_data_entries Demo.rect_footprint_ops P es). vm_compute. reflexivity.
Defined.

Lemma build_data_from_err {Elem Shape Region} (F : footprint_ops Region)
    (P : shape_provider Elem Shape) acc es e err :
  In e es -> _prep F P e = Err err -> exists err', build_data_from F P acc es = Err err'.
Proof.
  revert acc. induction es as [|e0 rest IH]; simpl; intros acc Hin Hp; [contradiction|].
  destruct Hin as [<- | Hin].
  - rewrite Hp. simpl. eauto.
  - destruct (_prep F P e0) as [od|err0]; simpl; [|eauto]. apply IH; assumption.
Qed.

Lemma _prep_mesh_err {Elem Shape Region} (F : footprint_ops Region) (P : shape_provider Elem Shape)
    e g err :
  global_id P e = Some g -> g <> EmptyString -> _mesh_world P e = Err err ->
  _prep F P e = Err err.
Proof.
  intros Hg Hne Hm. unfold _prep. rewrite Hg.
  destruct g as [|c s]; [contradiction|]. rewrite Hm. reflexivity.
Qed.

(** detect_plan_clashes has no per-element recovery: once the file opens, an
    element of either requested type that has a non-empty GlobalId and whose
    world-coordinate mesh cannot be built makes the whole call raise that
    error, whatever the other elements give (even when the other side is
    empty). *)
Theorem detect_plan_clashes_mesh_failure {Elem Shape Region} (F : footprint_ops Region)
    (O : overlay_ops Region) (P : shape_provider Elem Shape) file_path a_type b_type
    z_tolerance return_wkt model e g err :
  _open_ifc P file_path = Ok model ->
  In e (by_type model a_type) \/ In e (by_type model b_type) ->
  global_id P e = Some g -> g <> EmptyString -> _mesh_world P e = Err err ->
  exists err', detect_plan_clashes F O P file_path a_type b_type z_tolerance return_wkt = Err err'.
Proof.
  intros Ho Hin Hg Hne Hm.
  pose proof (_prep_mesh_err F P e g err Hg Hne Hm) as Hp.
  unfold detect_plan_clashes. rewrite Ho. simpl.
  destruct Hin as [Ha | Hb].
  - destruct (build_data_from_err F P [] _ e err Ha Hp) as [err' He].
    unfold build_data. rewrite He. simpl. eauto.
  - destruct (build_data F P (by_type model a_type)) as [ad|err0]; simpl; [|eauto].
    destruct (build_data_from_err F P [] _ e err Hb Hp) as [err' He].
    unfold build_data. rewrite He. simpl. eauto.
Qed.

Lemma detect_plan_clashes_mesh_failure_witness :
  exists err', detect_plan_clashes Demo.rect_footprint_ops Demo.rect_overlay_ops
                 (Demo.demo_provider ServiceDemo.lca_elems) "model.ifc" "IfcDoor" "IfcWall"
                 (1 # 5) false = Err err'.
Proof.
  apply (detect_plan_clashes_mesh_failure Demo.rect_footprint_ops Demo.rect_overlay_ops
           (Demo.demo_provider ServiceDemo.lca_elems) "model.ifc" "IfcDoor" "IfcWall" (1 # 5) false
           (Demo.demo_model ServiceDemo.lca_elems) 2%nat "ghost" (LibraryError "Failed to process shape")).
  - reflexivity.
  - right. vm_compute. auto.
  - reflexivity.
  - discriminate.
  - reflexivity.
Defined.

(** ** Z extents (wkt_clash_service._z_range) *)

Lemma fold_min_le_all (xs : list Q) x : forall y, In y xs -> fold_left Qmin xs x <= y.
Proof.
  revert x. induction xs as [|z zs IH]; simpl; intros x y Hy; [contradiction|].
  destruct Hy as [<- | Hy].
  - eapply Qle_trans; [apply fold_min_le | apply Q.le_min_r].
  - apply IH. exact Hy.
Qed.

Lemma fold_max_ge_all (xs : list Q) x : forall y, In y xs -> y <= fold_left Qmax xs x.
Proof.
  revert x. induction xs as [|z zs IH]; simpl; intros x y Hy; [contradiction|].
  destruct Hy as [<- | Hy].
  - eapply Qle_trans; [apply Q.le_max_r | apply fold_max_ge].
  - apply IH. exact Hy.
Qed.

Lemma fold_min_attained (xs : list Q) x : fold_left Qmin xs x = x \/ In (fold_left Qmin xs x) xs.
Proof.
  revert x. induction xs as [|z zs IH]; simpl; intros x; [auto|].
  destruct (IH (Qmin x z)) as [H | H]; [|auto]. rewrite H.
  unfold Qmin, GenericMinMax.gmin. destruct (x ?= z); auto.
Qed.

Lemma fold_max_attained (xs : list Q) x : fold_left Qmax xs x = x \/ In (fold_left Qmax xs x) xs.
Proof.
  revert x. induction xs as [|z zs IH]; simpl; intros x; [auto|].
  destruct (IH (Qmax x z)) as [H | H]; [|auto]. rewrite H.
  unfold Qmax, GenericMinMax.gmax. destruct (x ?= z); auto.
Qed.

(** _z_range gives (0, 0) for no vertices; otherwise its two values are the
    Z coordinates of some vertices, and every vertex's Z lies between them. *)
Theorem _z_range_bounds (verts : list vec3) :
  (verts = [] -> _z_range verts = (0, 0)) /\
  (verts <> [] ->
     (exists x y, In (x, y, fst (_z_range verts)) verts) /\
     (exists x y, In (x, y, snd (_z_range verts)) verts) /\
     forall x y z, In (x, y, z) verts -> fst (_z_range verts) <= z /\ z <= snd (_z_range verts)).
Proof.
  split; [intros ->; reflexivity|]. intros Hne.
  assert (Hz : forall z, In z (map (fun '(_, _, z) => z) verts) <-> exists x y, In (x, y, z) verts).
  { intros z. rewrite in_map_iff. split.
    - intros [[[x y] z'] [<- Hin]]. eauto.
    - intros [x [y Hin]]. exists (x, y, z). auto. }
  unfold _z_range.
  destruct (map (fun '(_, _, z) => z) verts) as [|z0 zs] eqn:Em.
  { destruct verts; [contradiction | discriminate]. }
  unfold list_min, list_max. simpl.
  split; [|split].
  - apply Hz. destruct (fold_min_attained zs z0) as [-> | H]; simpl; auto.
  - apply Hz. destruct (fold_max_attained zs z0) as [-> | H]; simpl; auto.
  - intros x y z Hin. assert (Hm : In z (z0 :: zs)) by (apply Hz; eauto).
    destruct Hm as [<- | Hm].
    + split; [apply fold_min_le | apply fold_max_ge].
    + split; [apply fold_min_le_all | apply fold_max_ge_all]; exact Hm.
Qed.

(** ** Storey footprints and their overlap (geometry_service) *)

Lemma band_points_in zmin zmax verts x y :
  In (x, y) (band_points zmin zmax verts) <->
  exists z, In (x, y, z) verts /\
    (forall m, zmin = Some m -> m <= z) /\ (forall m, zmax = Some m -> z <= m).
Proof.
  induction verts as [|[[x0 y0] z0] rest IH]; simpl.
  - split; [tauto | intros [z [[] _]]].
  - destruct (match zmin with Some m => Qltb z0 m | None => false end) eqn:Hlo.
    + rewrite IH. split.
      * intros [z [Hin Hz]]. eauto.
      * intros [z [[Heq | Hin] [Hz1 Hz2]]]; [|eauto].
        injection Heq as -> -> ->. destruct zmin as [m|]; [|discriminate].
        apply Qltb_true in Hlo. exfalso. apply (Qlt_not_le _ _ Hlo (Hz1 m eq_refl)).
    + destruct (match zmax with Some m => Qltb m z0 | None => false end) eqn:Hhi.
      * rewrite IH. split.
        -- intros [z [Hin Hz]]. eauto.
        -- intros [z [[Heq | Hin] [Hz1 Hz2]]]; [|eauto].
           injection Heq as -> -> ->. destruct zmax as [m|]; [|discriminate].
           apply Qltb_true in Hhi. exfalso. apply (Qlt_not_le _ _ Hhi (Hz2 m eq_refl)).
      * simpl. rewrite IH. split.
        -- intros [Heq | [z [Hin Hz]]]; [|eauto].
           injection Heq as <- <-. exists z0. split; [auto|]. split.
           ++ intros m ->. apply Qltb_false in Hlo. exact Hlo.
           ++ intros m ->. apply Qltb_false in Hhi. exact Hhi.
        -- intros [z [[Heq | Hin] Hz]]; [injection Heq as -> -> ->; auto | eauto].
Qed.

(** The storey footprint of an element is None when the element is not found
    or fewer than 3 of its mesh vertices lie in the [z_min, z_max] band;
    otherwise it is the convex hull of the XY points of exactly the vertices
    in the band (bounds included, a missing bound not checked), at least 3 of
    them. *)
Theorem _footprint_polygon_for_element_cases {Elem Shape Region} (P : shape_provider Elem Shape)
    (convex_hull : list (Q * Q) -> Region) file_path r z_min z_max :
  let fpe := _footprint_polygon_for_element P convex_hull file_path r z_min z_max in
  (forall model, _open_ifc P file_path = Ok model ->
     _get_element (global_id P) model r = Ok None -> fpe = Ok None) /\
  (forall model el shape, _open_ifc P file_path = Ok model ->
     _get_element (global_id P) model r = Ok (Some el) ->
     _create_shape_with_fallback (create_shape_mesh P) el false true = Ok shape ->
     (List.length (band_points z_min z_max (fst shape)) < 3)%nat -> fpe = Ok None) /\
  (forall R, fpe = Ok (Some R) ->
     exists model el shape pts,
       _open_ifc P file_path = Ok model /\ _get_element (global_id P) model r = Ok (Some el) /\
       _create_shape_with_fallback (create_shape_mesh P) el false true = Ok shape /\
       R = convex_hull pts /\ (3 <= List.length pts)%nat /\
       forall x y, In (x, y) pts <->
         exists z, In (x, y, z) (fst shape) /\
           (forall m, z_min = Some m -> m <= z) /\ (forall m, z_max = Some m -> z <= m)).
Proof.
  intros fpe. unfold fpe, _footprint_polygon_for_element. split; [|split].
  - intros model Ho Hg. rewrite Ho. simpl. rewrite Hg. reflexivity.
  - intros model el shape Ho Hg Hs Hlen. rewrite Ho. simpl. rewrite Hg. simpl. rewrite Hs. simpl.
    apply Nat.ltb_lt in Hlen. rewrite Hlen. reflexivity.
  - intros R. destruct (_open_ifc P file_path) as [model|e] eqn:Ho; simpl; [|discriminate].
    destruct (_get_element (global_id P) model r) as [[el|]|e] eqn:Hg; simpl; try discriminate.
    destruct (_create_shape_with_fallback (create_shape_mesh P) el false true) as [shape|e] eqn:Hs;
      simpl; [|discriminate].
    destruct (List.length (band_points z_min z_max (fst shape)) <? 3)%nat eqn:Hlen; [discriminate|].
    intros H. injection H as <-.
    exists model, el, shape, (band_points z_min z_max (fst shape)).
    apply Nat.ltb_ge in Hlen.
    do 4 (split; [first [assumption | reflexivity]|]). split; [exact Hlen|].
    intros x y. apply band_points_in.
Qed.

(** overlaps_2d_on_storey answers true only when both footprints exist and
    their intersection area exceeds area_tol; a missing footprint answers
    false, but only after the other footprint was built, whose failure still
    propagates; the answer can only turn from true to false as area_tol
    grows. *)
Theorem overlaps_2d_on_storey_cases {Elem Shape Region} (P : shape_provider Elem Shape)
    (convex_hull : list (Q * Q) -> Region) (O : overlay_ops Region) file_path a b z_min z_max :
  let fp r := _footprint_polygon_for_element P convex_hull file_path r z_min z_max in
  let ov t := overlaps_2d_on_storey P convex_hull O file_path a b z_min z_max t in
  (forall t, ov t = Ok true ->
     exists pa pb, fp a = Ok (Some pa) /\ fp b = Ok (Some pb) /\
       t < geom_area O (intersection O pa pb)) /\
  (fp a = Ok None -> forall t, (exists pb, fp b = Ok pb) -> ov t = Ok false) /\
  (fp a = Ok None -> forall t e, fp b = Err e -> ov t = Err e) /\
  (forall pa, fp a = Ok pa -> fp b = Ok None -> forall t, ov t = Ok false) /\
  (forall t1 t2, t1 <= t2 -> ov t2 = Ok true -> ov t1 = Ok true).
Proof.
  intros fp ov. unfold ov, fp, overlaps_2d_on_storey.
  split; [|split; [|split; [|split]]].
  - intros t. destruct (_footprint_polygon_for_element P convex_hull file_path a z_min z_max)
      as [[pa|]|e] eqn:Ha;
    destruct (_footprint_polygon_for_element P convex_hull file_path b z_min z_max)
      as [[pb|]|e'] eqn:Hb; simpl; try discriminate.
    intros H. injection H as H. apply Qltb_true in H. eauto.
  - intros Ha t [pb Hb]. rewrite Ha, Hb. simpl. destruct pb; reflexivity.
  - intros Ha t e Hb. rewrite Ha, Hb. reflexivity.
  - intros pa Ha Hb t. rewrite Ha, Hb. simpl. destruct pa; reflexivity.
  - intros t1 t2 Ht. destruct (_footprint_polygon_for_element P convex_hull file_path a z_min z_max)
      as [[pa|]|e];
    destruct (_footprint_polygon_for_element P convex_hull file_path b z_min z_max)
      as [[pb|]|e']; simpl; try discriminate.
    intros H. injection H as H. apply Qltb_true in H. f_equal. apply Qltb_true.
    eapply Qle_lt_trans; eassumption.
Qed.

(** resolve_overlaps_2d_on_storey (wkt_clash_resolvers) looks the function up
    on wkt_clash_service, which defines none of the three spellings it tries:
    for an existing file the resolver always raises the misconfiguration
    error, otherwise File not found; it never calls the service. *)
Theorem resolve_overlaps_2d_on_storey_always_raises {R}
    (svc_getattr : string -> option (string -> string -> string -> string -> Q -> bool -> result R))
    is_type_error isfile filePath storeyId aType bType zTolerance returnWkt :
  (forall n, ~ In n wkt_clash_service_names -> svc_getattr n = None) ->
  resolve_overlaps_2d_on_storey svc_getattr is_type_error isfile filePath storeyId aType bType
    zTolerance returnWkt =
  if isfile filePath
  then Err (GraphQLError "Server misconfig: wkt_clash_service is missing overlaps_2d_on_storey")
  else Err (GraphQLError ("File not found: " ++ filePath)).
Proof.
  intros Hsvc. unfold resolve_overlaps_2d_on_storey.
  destruct (isfile filePath); simpl; [|reflexivity].
  rewrite !Hsvc; [reflexivity | vm_compute; intuition discriminate ..].
Qed.

Lemma resolve_overlaps_2d_on_storey_always_raises_witness :
  (forall n, ~ In n wkt_clash_service_names ->
     (fun _ : string => @None (string -> string -> string -> string -> Q -> bool -> result nat)) n
       = None) /\
  resolve_overlaps_2d_on_storey (fun _ => @None (string -> string -> string -> string -> Q -> bool -> result nat))
    (fun _ => false) (fun _ => true) "model.ifc" "storey" "IfcWall" "IfcSlab" (1 # 5) false
  = Err (GraphQLError "Server misconfig: wkt_clash_service is missing overlaps_2d_on_storey").
Proof.
  split; [intros n _; reflexivity|].
  exact (resolve_overlaps_2d_on_storey_always_raises
           (fun _ => @None (string -> string -> string -> string -> Q -> bool -> result nat))
           (fun _ => false) (fun _ => true) "model.ifc" "storey" "IfcWall" "IfcSlab" (1 # 5) false
           (fun n _ => eq_refl)).
Defined.

(** ** Client masking (authz.mask_for_client, resolve_get_element_geometry) *)

Lemma dict_get_in {V} (d : list (string * V)) k w :
  dict_get d k = Some w -> In (k, w) d.
Proof.
  unfold dict_get. destruct (find (fun kv => string_eqb (fst kv) k) d) as [[k' w']|] eqn:Hf;
    [|discriminate].
  intros H. injection H as <-. pose proof (find_some _ _ Hf) as [Hin Hk].
  simpl in Hk. apply string_eqb_true in Hk. subst. exact Hin.
Qed.

Lemma dict_get_nodup {V} (d : list (string * V)) k w :
  NoDup (map fst d) -> In (k, w) d -> dict_get d k = Some w.
Proof.
  intros Hnd Hin. unfold dict_get.
  destruct (find (fun kv => string_eqb (fst kv) k) d) as [[k' w']|] eqn:Hf.
  - pose proof (find_some _ _ Hf) as [Hin' Hk]. simpl in Hk. apply string_eqb_true in Hk. subst.
    f_equal. exact (nodup_assoc_unique d k w' w Hnd Hin' Hin).
  - pose proof (find_none _ _ Hf (k, w) Hin) as H. simpl in H.
    rewrite (proj2 (string_eqb_true k k) eq_refl) in H. discriminate.
Qed.

Lemma dict_mem_in {V} (d : list (string * V)) k : dict_mem d k = true <-> In k (map fst d).
Proof.
  unfold dict_mem. rewrite existsb_exists, in_map_iff. split.
  - intros [[k' w] [Hin Hk]]. simpl in Hk. apply string_eqb_true in Hk. subst. exists (k, w). auto.
  - intros [[k' w] [<- Hin]]. exists (k', w). split; [exact Hin | apply string_eqb_true; reflexivity].
Qed.

Lemma map_fst_pair {A B} (f : A -> B) (l : list A) : map fst (map (fun k => (k, f k)) l) = l.
Proof. induction l as [|x l IH]; simpl; congruence. Qed.

(** For a payload with distinct keys, mask_for_client keeps, in the order
    id, name, glbUrl, matrix, location, hasGlbFile, exactly those of these
    keys that the payload has, each with its value from the payload; no other
    key (vertices, faces, edges, ...) survives. *)
Theorem mask_for_client_keys {V} (payload : list (string * V)) :
  NoDup (map fst payload) ->
  map fst (mask_for_client payload) = filter (dict_mem payload) mask_keep /\
  (forall k v, In (k, v) (mask_for_client payload) <->
     In k mask_keep /\ exists w, v = Some w /\ In (k, w) payload) /\
  (forall k, ~ In k mask_keep -> ~ In k (map fst (mask_for_client payload))).
Proof.
  intros Hnd. unfold mask_for_client.
  split; [apply map_fst_pair|].
  split.
  - intros k v. rewrite in_map_iff. split.
    + intros [k' [Heq Hin]]. injection Heq as <- <-.
      apply filter_In in Hin. destruct Hin as [Hk Hm]. split; [exact Hk|].
      apply dict_mem_in in Hm. apply in_map_iff in Hm. destruct Hm as [[k0 w] [Hk0 Hin]].
      simpl in Hk0. subst k0. exists w. split; [|exact Hin]. exact (dict_get_nodup _ _ _ Hnd Hin).
    + intros [Hk [w [-> Hin]]]. exists k. split.
      * rewrite (dict_get_nodup _ _ _ Hnd Hin). reflexivity.
      * apply filter_In. split; [exact Hk|]. apply dict_mem_in. exact (in_map fst _ _ Hin).
  - intros k Hk Hin. rewrite map_fst_pair in Hin.
    apply filter_In in Hin. exact (Hk (proj1 Hin)).
Qed.

Lemma mask_for_client_keys_witness :
  NoDup (map fst ServiceDemo.payload) /\
  map fst (mask_for_client ServiceDemo.payload) = filter (dict_mem ServiceDemo.payload) mask_keep /\
  (forall k v, In (k, v) (mask_for_client ServiceDemo.payload) <->
     In k mask_keep /\ exists w, v = Some w /\ In (k, w) ServiceDemo.payload) /\
  (forall k, ~ In k mask_keep -> ~ In k (map fst (mask_for_client ServiceDemo.payload))).
Proof.
  assert (H : NoDup (map fst ServiceDemo.payload)).
  { vm_compute. repeat constructor; vm_compute; intuition discriminate. }
  split; [exact H | exact (mask_for_client_keys ServiceDemo.payload H)].
Defined.

Lemma role_is_client r : role_is (Some r) ["client"]%string = true <-> str_lower r = "client"%string.
Proof.
  destruct r as [|c s].
  - vm_compute. split; discriminate.
  - unfold role_is. simpl map. unfold existsb. rewrite orb_false_r.
    change (str_lower "client") with "client"%string. apply string_eqb_true.
Qed.

(** getElementGeometry has no role gate and masks the payload for the client
    role only, in any letter case: anonymous callers and every other role get
    the exported payload in full; an export failure is reported for every
    role. *)
Theorem resolve_get_element_geometry_roles {V}
    (export : string -> element_ref -> result (list (string * V))) role filePath elementId :
  (forall payload, export filePath (RefStr elementId) = Ok payload ->
     resolve_get_element_geometry export role filePath elementId =
       if role_is role ["client"]%string then Ok (MaskedPayload (mask_for_client payload))
       else Ok (FullPayload payload)) /\
  (forall e, export filePath (RefStr elementId) = Err e ->
     resolve_get_element_geometry export role filePath elementId =
       Err (GraphQLWrapped "getElementGeometry failed" e)) /\
  (role = None -> role_is role ["client"]%string = false) /\
  (forall r, role = Some r -> (role_is role ["client"]%string = true <-> str_lower r = "client"%string)).
Proof.
  unfold resolve_get_element_geometry. split; [|split; [|split]].
  - intros payload H. rewrite H. reflexivity.
  - intros e H. rewrite H. reflexivity.
  - intros ->. reflexivity.
  - intros r ->. apply role_is_client.
Qed.

(** ** Material usage and embodied carbon (lifecycle_service) *)


Lemma pow10_3 : pow10 3 = 1000%positive.
Proof. reflexivity. Qed.








(** ** Element listing (ifc_service.elements_by_type) *)

Section Listing.

Variable Elem Shape : Type.
Variable P : shape_provider Elem Shape.
Variable K : occ_kernel Shape.
Variable surface_mass : Shape -> Q.
Variable is_a : Elem -> string.
Variable step_id : Elem -> Z.
Variable name : Elem -> option string.
Variable get_GlobalId : Elem -> result (option string).
Variable vol_props surf_props : list vec3 * list face -> result Q.

Lemma warn_readable el g : get_GlobalId el = Ok g -> warn get_GlobalId el = Ok tt.
Proof. intros Hg. unfold warn. rewrite Hg. reflexivity. Qed.

Lemma local_fallback_readable el ss v a g :
  get_GlobalId el = Ok g ->
  exists p, local_fallback P get_GlobalId vol_props surf_props el ss v a = Ok p.
Proof.
  intros Hg. pose proof (warn_readable el g Hg) as Hw.
  revert v a. induction ss as [|s rest IH]; simpl; intros v a; [eauto|].
  destruct (create_shape_mesh P s el) as [shape|e]; [|rewrite Hw; apply IH].
  destruct v as [v|]; [|destruct (vol_props shape) as [x|e]; simpl; [|rewrite Hw; apply IH]];
  (destruct a as [a|]; [|destruct (surf_props shape) as [y|e]; simpl; [|rewrite Hw; apply IH]]);
  simpl; eauto.
Qed.

Lemma local_fallback_keeps_volume el ss v a p :
  local_fallback P get_GlobalId vol_props surf_props el ss (Some v) a = Ok p -> fst p = Some v.
Proof.
  revert a p. induction ss as [|s rest IH]; simpl; intros a p H; [injection H as <-; reflexivity|].
  destruct (create_shape_mesh P s el) as [shape|e].
  - destruct a as [a|]; [|destruct (surf_props shape) as [y|e]]; simpl in H.
    + injection H as <-. reflexivity.
    + injection H as <-. reflexivity.
    + destruct (warn get_GlobalId el); simpl in H; [exact (IH _ _ H) | discriminate].
  - destruct (warn get_GlobalId el); simpl in H; [exact (IH _ _ H) | discriminate].
Qed.

Lemma local_fallback_keeps_area el ss v a p :
  local_fallback P get_GlobalId vol_props surf_props el ss v (Some a) = Ok p -> snd p = Some a.
Proof.
  revert v p. induction ss as [|s rest IH]; simpl; intros v p H; [injection H as <-; reflexivity|].
  destruct (create_shape_mesh P s el) as [shape|e].
  - destruct v as [v|]; [|destruct (vol_props shape) as [x|e]]; simpl in H.
    + injection H as <-. reflexivity.
    + injection H as <-. reflexivity.
    + destruct (warn get_GlobalId el); simpl in H; [exact (IH _ _ H) | discriminate].
  - destruct (warn get_GlobalId el); simpl in H; [exact (IH _ _ H) | discriminate].
Qed.

Lemma local_fallback_volume_none el ss a p :
  local_fallback P get_GlobalId vol_props surf_props el ss None a = Ok p ->
  (fst p = None <->
   forall s, In s ss -> forall shape, create_shape_mesh P s el = Ok shape ->
     exists e, vol_props shape = Err e).
Proof.
  revert a p. induction ss as [|s rest IH]; simpl; intros a p H.
  - injection H as <-. split; [intros _ s' [] | intros _; reflexivity].
  - destruct (create_shape_mesh P s el) as [shape|e] eqn:Hc.
    + destruct (vol_props shape) as [x|e] eqn:Hv; simpl in H.
      * assert (Hs : fst p = Some (py_round x 4)).
        { destruct a as [a|]; [|destruct (surf_props shape) as [y|e']]; simpl in H.
          - injection H as <-. reflexivity.
          - injection H as <-. reflexivity.
          - destruct (warn get_GlobalId el); simpl in H; [|discriminate].
            exact (local_fallback_keeps_volume _ _ _ _ _ H). }
        rewrite Hs. split; [discriminate|].
        intros Hall. destruct (Hall s (or_introl eq_refl) shape Hc) as [e He].
        rewrite Hv in He. discriminate He.
      * destruct (warn get_GlobalId el); simpl in H; [|discriminate].
        rewrite (IH _ _ H). split.
        -- intros Hr s' [<- | Hs'] shape' Hc'; [|exact (Hr s' Hs' shape' Hc')].
           rewrite Hc in Hc'. injection Hc' as <-. exists e. exact Hv.
        -- intros Hr s' Hs'. apply Hr. right. exact Hs'.
    + destruct (warn get_GlobalId el); simpl in H; [|discriminate].
      rewrite (IH _ _ H). split.
      * intros Hr s' [<- | Hs'] shape' Hc'; [rewrite Hc in Hc'; discriminate Hc' | exact (Hr s' Hs' shape' Hc')].
      * intros Hr s' Hs'. apply Hr. right. exact Hs'.
Qed.

Lemma local_fallback_volume_fails el ss a p :
  (forall shape, exists e, vol_props shape = Err e) ->
  local_fallback P get_GlobalId vol_props surf_props el ss None a = Ok p -> p = (None, a).
Proof.
  intros Hv. revert p. induction ss as [|s rest IH]; simpl; intros p H;
    [injection H as <-; reflexivity|].
  destruct (create_shape_mesh P s el) as [shape|e];
    [destruct (Hv shape) as [e He]; rewrite He in H|]; simpl in H;
    (destruct (warn get_GlobalId el); simpl in H; [exact (IH _ H) | discriminate]).
Qed.

Lemma element_row_unreadable file_path el e :
  get_GlobalId el = Err e ->
  exists e', element_row P K surface_mass is_a step_id name get_GlobalId vol_props surf_props
               file_path el = Err e'.
Proof.
  intros Hg. unfold element_row, warn. cbv zeta. rewrite Hg.
  destruct (compute_element_volume P K file_path (RefInt (step_id el)));
    [destruct (compute_element_surface_area P surface_mass file_path (RefInt (step_id el)))|];
    cbn [bind]; eauto.
Qed.

Lemma element_row_readable file_path el g :
  get_GlobalId el = Ok g ->
  exists row, element_row P K surface_mass is_a step_id name get_GlobalId vol_props surf_props
                file_path el = Ok row.
Proof.
  intros Hg. unfold element_row, warn. cbv zeta. rewrite Hg.
  destruct (compute_element_volume P K file_path (RefInt (step_id el))) as [v|ev];
    destruct (compute_element_surface_area P surface_mass file_path (RefInt (step_id el)))
      as [a|ea]; cbn [bind]; [eauto| | |];
    match goal with
    | |- context [local_fallback P get_GlobalId vol_props surf_props el ?ss ?v ?a] =>
        destruct (local_fallback_readable el ss v a g Hg) as [p Hp]; rewrite Hp; cbn [bind]; eauto
    end.
Qed.

Lemma element_rows_readable file_path els :
  (forall el, In el els -> exists g, get_GlobalId el = Ok g) ->
  exists rows, element_rows P K surface_mass is_a step_id name get_GlobalId vol_props surf_props
                 file_path els = Ok rows.
Proof.
  induction els as [|el rest IH]; intros Hall; [exists []; reflexivity|].
  destruct (Hall el (or_introl eq_refl)) as [g Hg].
  destruct (element_row_readable file_path el g Hg) as [row Hr].
  destruct IH as [rows Hrs]; [intros el' H'; apply Hall; right; exact H'|].
  exists (row :: rows). cbn [element_rows]. rewrite Hr, Hrs. reflexivity.
Qed.

End Listing.

(** elements_by_type returns [] when the file cannot be opened (and its
    resolver then answers an empty list for an existing file, not an error),
    and also when the type has an element whose [el.GlobalId] read raises
    (an entity type without GlobalId). Otherwise there is one row per
    element of the type, in order, with the element's GlobalId, Name and IFC
    type. A volume or area found by geometry_service is kept. The volume is
    None exactly when geometry_service failed and, for both fallback
    settings, the shape could not be built or its volume properties raised.
    Because the volume step runs first in the fallback, when volume
    properties always raise the area stays as geometry_service left it, even
    if surface properties would succeed. *)
Theorem elements_by_type_rows {Elem Shape} (P : shape_provider Elem Shape) (K : occ_kernel Shape)
    surface_mass is_a step_id name get_GlobalId vol_props surf_props file_path element_type :
  let ebt := elements_by_type P K surface_mass is_a step_id name get_GlobalId vol_props surf_props
               file_path element_type in
  (forall e, ifc_open P file_path = Err e -> ebt = [] /\
     (isfile P file_path = true ->
        resolve_elements_by_type P K surface_mass is_a step_id name get_GlobalId vol_props
          surf_props file_path element_type = Ok [])) /\
  (forall model el e, ifc_open P file_path = Ok model -> In el (by_type model element_type) ->
     get_GlobalId el = Err e -> ebt = []) /\
  (forall model, ifc_open P file_path = Ok model ->
     (forall el, In el (by_type model element_type) -> exists g, get_GlobalId el = Ok g) ->
     Forall2 (fun el row =>
       let vol := compute_element_volume P K file_path (RefInt (step_id el)) in
       let ar := compute_element_surface_area P surface_mass file_path (RefInt (step_id el)) in
       get_GlobalId el = Ok (row_id row) /\ row_name row = name el /\ row_type row = is_a el /\
       (forall v, vol = Ok v -> row_volume row = Some v) /\
       (forall a, ar = Ok a -> row_area row = Some a) /\
       (row_volume row = None <->
          (exists e, vol = Err e) /\
          forall s, In s [_settings true false; _settings true true] ->
            forall shape, create_shape_mesh P s el = Ok shape -> exists e, vol_props shape = Err e) /\
       ((forall shape, exists e, vol_props shape = Err e) -> (exists e, vol = Err e) ->
          row_area row = match ar with Ok a => Some a | Err _ => None end))
     (by_type model element_type) ebt).
Proof.
  intros ebt. unfold ebt, elements_by_type. split; [|split].
  - intros e He. rewrite He. split; [reflexivity|].
    intros Hf. unfold resolve_elements_by_type, elements_by_type. rewrite Hf, He. reflexivity.
  - intros model el e Hm Hin Hg. rewrite Hm.
    assert (Hr : exists e', element_rows P K surface_mass is_a step_id name get_GlobalId vol_props
                              surf_props file_path (by_type model element_type) = Err e').
    { induction (by_type model element_type) as [|el' rest IH]; [destruct Hin|].
      cbn [element_rows]. destruct Hin as [Heq | Hin]; [subst el'|].
      - destruct (element_row_unreadable Elem Shape P K surface_mass is_a step_id name
                    get_GlobalId vol_props surf_props file_path el e Hg) as [e' He'].
        rewrite He'. cbn [bind]. eauto.
      - destruct (element_row P K surface_mass is_a step_id name get_GlobalId vol_props surf_props
                    file_path el'); cbn [bind]; [|eauto].
        destruct (IH Hin) as [e' He']. rewrite He'. cbn [bind]. eauto. }
    destruct Hr as [e' He']. rewrite He'. reflexivity.
  - intros model Hm. rewrite Hm.
    induction (by_type model element_type) as [|el rest IH]; intros Hall; [constructor|].
    destruct (Hall el (or_introl eq_refl)) as [g Hg].
    assert (Hrest : forall el', In el' rest -> exists g', get_GlobalId el' = Ok g')
      by (intros el' H'; apply Hall; right; exact H').
    destruct (element_row_readable Elem Shape P K surface_mass is_a step_id name get_GlobalId
                vol_props surf_props file_path el g Hg) as [row Her].
    destruct (element_rows_readable Elem Shape P K surface_mass is_a step_id name get_GlobalId
                vol_props surf_props file_path rest Hrest) as [rows Hrs].
    specialize (IH Hrest). rewrite Hrs in IH.
    cbn [element_rows]. rewrite Her, Hrs. cbn [bind].
    constructor; [|exact IH].
    unfold element_row, warn in Her. cbv zeta in Her. rewrite Hg in Her. cbv beta zeta.
    destruct (compute_element_volume P K file_path (RefInt (step_id el))) as [v|ev] eqn:Hv;
    destruct (compute_element_surface_area P surface_mass file_path (RefInt (step_id el)))
      as [a|ea] eqn:Ha; cbn [bind] in Her.
    + injection Her as <-. cbn [row_id row_name row_type row_area row_volume fst snd].
      split; [exact Hg|]. split; [reflexivity|]. split; [reflexivity|].
      split; [intros v0 H0; injection H0 as <-; reflexivity|].
      split; [intros a0 H0; injection H0 as <-; reflexivity|].
      split; [split; [discriminate | intros [[e He] _]; discriminate]|].
      intros _ [e He]; discriminate.
    + destruct (local_fallback P get_GlobalId vol_props surf_props el
                  [_settings true false; _settings true true] (Some v) None)
        as [[v' a']|e] eqn:Hl; [|discriminate].
      injection Her as <-.
      pose proof (local_fallback_keeps_volume Elem Shape P get_GlobalId vol_props surf_props
                    _ _ _ _ _ Hl) as Hk. simpl in Hk. subst v'.
      cbn [row_id row_name row_type row_area row_volume fst snd].
      split; [exact Hg|]. split; [reflexivity|]. split; [reflexivity|].
      split; [intros v0 H0; injection H0 as <-; reflexivity|].
      split; [intros a0 H0; discriminate|].
      split; [split; [discriminate | intros [[e He] _]; discriminate]|].
      intros _ [e He]; discriminate.
    + destruct (local_fallback P get_GlobalId vol_props surf_props el
                  [_settings true false; _settings true true] None (Some a))
        as [[v' a']|e] eqn:Hl; [|discriminate].
      injection Her as <-.
      pose proof (local_fallback_keeps_area Elem Shape P get_GlobalId vol_props surf_props
                    _ _ _ _ _ Hl) as Hk.
      pose proof (local_fallback_volume_none Elem Shape P get_GlobalId vol_props surf_props
                    _ _ _ _ Hl) as Hn.
      simpl in Hk, Hn. subst a'.
      cbn [row_id row_name row_type row_area row_volume fst snd].
      split; [exact Hg|]. split; [reflexivity|]. split; [reflexivity|].
      split; [intros v0 H0; discriminate|].
      split; [intros a0 H0; injection H0 as <-; reflexivity|].
      split.
      * rewrite Hn. split; [intros H; split; [eauto | exact H] | intros [_ H]; exact H].
      * intros _ _. reflexivity.
    + destruct (local_fallback P get_GlobalId vol_props surf_props el
                  [_settings true false; _settings true true] None None)
        as [[v' a']|e] eqn:Hl; [|discriminate].
      injection Her as <-.
      pose proof (local_fallback_volume_none Elem Shape P get_GlobalId vol_props surf_props
                    _ _ _ _ Hl) as Hn.
      pose proof (local_fallback_volume_fails Elem Shape P get_GlobalId vol_props surf_props
                    el [_settings true false; _settings true true] None (v', a')) as Hf.
      simpl in Hn.
      cbn [row_id row_name row_type row_area row_volume fst snd].
      split; [exact Hg|]. split; [reflexivity|]. split; [reflexivity|].
      split; [intros v0 H0; discriminate|]. split; [intros a0 H0; discriminate|].
      split.
      * rewrite Hn. split; [intros H; split; [eauto | exact H] | intros [_ H]; exact H].
      * intros Hvp _. specialize (Hf Hvp Hl). injection Hf as _ ->. reflexivity.
Qed.
